(** * ApiTestTool: the SAC relay and its session client

    A shallow embedding of [main.py]: the class [SACClient] (OAuth2
    client-credentials token cache, CSRF handshake, one-shot CSRF retry)
    and the relay route [execute_sac_request].

    Conventions of the model.
    - A Python [str] is a [string] holding its UTF-8 encoding;
      [str.startswith], [str.rstrip] and the [in] test on strings are written
      out on it.  [str.upper] is the one of the Python runtime, a part of the
      environment ([upper] of [Upstream]); [ascii_upper] is what it does on
      ASCII text.
    - The numbers of a decoded JSON body are the integers.  The clock reads
      whole epoch seconds below 2^52, and a Python [float] that holds an
      integer is that integer ([Z]): the arithmetic of line 47 rounds to
      binary64 ([round64]) and raises [OverflowError] for an integer too
      large for a [float].
    - A Python [dict] used as a map is a [gmap]; the case-insensitive header
      dictionary of a [requests.Response] is a [gmap] keyed by the lower-cased
      header name, holding the original name and the value.
    - The upstream platform, the token endpoint and the clock are the
      environment: an arbitrary deterministic state machine ([Upstream]); what
      a [requests.Session] keeps between calls (cookies, connections) is part
      of it.
    - Exceptions are values of [exn]; a raised exception keeps the mutations
      done before it. *)

From Stdlib Require Import ZArith Lia Ascii.
From stdpp Require Import base option list strings gmap.

Local Open Scope Z_scope.
Set Warnings "-register-all".

(** ** Strings *)

Definition upper_ascii (c : ascii) : ascii :=
  let n := Ascii.nat_of_ascii c in
  if ((97 <=? n) && (n <=? 122))%nat then Ascii.ascii_of_nat (n - 32) else c.

Definition lower_ascii (c : ascii) : ascii :=
  let n := Ascii.nat_of_ascii c in
  if ((65 <=? n) && (n <=? 90))%nat then Ascii.ascii_of_nat (n + 32) else c.

(** [s.upper()] on ASCII text *)
Fixpoint ascii_upper (s : string) : string :=
  match s with
  | EmptyString => EmptyString
  | String c s' => String (upper_ascii c) (ascii_upper s')
  end.

(** The text has ASCII characters only. *)
Fixpoint is_ascii (s : string) : bool :=
  match s with
  | EmptyString => true
  | String c s' => (Ascii.nat_of_ascii c <? 128)%nat && is_ascii s'
  end.

(** [s.lower()] *)
Fixpoint lower (s : string) : string :=
  match s with
  | EmptyString => EmptyString
  | String c s' => String (lower_ascii c) (lower s')
  end.

(** [s.startswith(p)] *)
Definition startswith (s p : string) : bool := String.prefix p s.

(** [needle in s] *)
Fixpoint contains (needle s : string) : bool :=
  String.prefix needle s ||
  match s with
  | EmptyString => false
  | String _ s' => contains needle s'
  end.

(** [s.rstrip(ch)] for a one-character set *)
Fixpoint rstrip (ch : ascii) (s : string) : string :=
  match s with
  | EmptyString => EmptyString
  | String c s' =>
      let t := rstrip ch s' in
      if Ascii.eqb c ch && String.eqb t EmptyString then EmptyString
      else String c t
  end.

Definition slash : ascii := Ascii.ascii_of_nat 47.

(** ** Python values decoded from JSON *)

Inductive json : Type :=
| JNull
| JBool (b : bool)
| JNum (n : Z)
| JStr (s : string)
| JArr (items : list json)
| JObj (members : list (string * json)).

(** Member lookup in a decoded object; on a repeated key the last one wins,
    as in [json.loads]. *)
Fixpoint obj_get (k : string) (ms : list (string * json)) : option json :=
  match ms with
  | [] => None
  | (k', v) :: ms' =>
      match obj_get k ms' with
      | Some v' => Some v'
      | None => if String.eqb k' k then Some v else None
      end
  end.

(** Python truth value: [None], [False], [0], the empty string, list and
    dict are false. *)
Definition truthy (v : json) : bool :=
  match v with
  | JNull => false
  | JBool b => b
  | JNum n => negb (n =? 0)
  | JStr s => negb (String.eqb s EmptyString)
  | JArr items => match items with [] => false | _ => true end
  | JObj members => match members with [] => false | _ => true end
  end.

(** ** Exceptions *)

Inductive exn : Type :=
| ValueError (msg : string)
| KeyError (key : string)
| TypeError
| AttributeError
| JSONDecodeError
| OverflowError
| HTTPError (status : Z)
| ReadTimeout
| ConnectTimeout
| ConnectionError
| RequestException.

(** [isinstance(e, requests.exceptions.Timeout)]: [ReadTimeout] and
    [ConnectTimeout] derive from [Timeout]. *)
Definition is_Timeout (e : exn) : bool :=
  match e with
  | ReadTimeout | ConnectTimeout => true
  | _ => false
  end.

(** [isinstance(e, requests.exceptions.ConnectionError)]: [ConnectTimeout]
    derives from both [ConnectionError] and [Timeout]. *)
Definition is_ConnectionError (e : exn) : bool :=
  match e with
  | ConnectionError | ConnectTimeout => true
  | _ => false
  end.

(** ** HTTP requests and responses, as [requests] sees them *)

(** A header value built by the client: a literal, the f-string
    [f'Bearer {tok}'], or a token value put in as it is ([None] is
    [JNull]). *)
Inductive hval : Type :=
| HStr (s : string)
| HBearer (tok : json)
| HTok (v : json).

(** The arguments of one [session.post / get / request] call. *)
Record Request : Type := {
  rq_method : string;
  rq_url : string;
  rq_headers : gmap string hval;
  rq_data : gmap string string;
  rq_json : option json
}.

(** [requests.Response]: [json] is what [response.json()] returns, [None]
    when it raises. *)
Record Response : Type := {
  status_code : Z;
  text : string;
  json_ : option json;
  headers : gmap string (string * string)
}.

(** [response.headers.get(name)] on the case-insensitive dictionary. *)
Definition headers_get (r : Response) (name : string) : option string :=
  snd <$> headers r !! lower name.

(** [dict(response.headers)] *)
Definition dict_of_headers (r : Response) : gmap string string :=
  list_to_map (snd <$> map_to_list (headers r)).

(** What one exchange gives: a value or a raised exception. *)
Inductive result (A : Type) : Type :=
| Ok (a : A)
| Raise (e : exn).
Arguments Ok {A} a.
Arguments Raise {A} e.

(** One upstream call as the trace records it: the call site, the request
    and what came back. *)
Inductive Event : Type :=
| SessionPost (q : Request) (o : result Response)
| SessionGet (q : Request) (o : result Response)
| SessionRequest (q : Request) (o : result Response).

Definition outcome (ev : Event) : result Response :=
  match ev with
  | SessionPost _ o | SessionGet _ o | SessionRequest _ o => o
  end.

(** [response.raise_for_status()]: [requests] raises [HTTPError] for the
    client errors 400..499 and the server errors 500..599, and for nothing
    else. *)
Definition raise_for_status (r : Response) : result unit :=
  if (400 <=? status_code r) && (status_code r <? 600)
  then Raise (HTTPError (status_code r))
  else Ok tt.

(** ** Python floats that hold integers *)

(** The integer nearest to [z] that a binary64 [float] holds (53 bits of
    precision, ties to even), the exponent left unbounded. *)
Definition round64 (z : Z) : Z :=
  let a := Z.abs z in
  let k := Z.max 0 (Z.log2 a + 1 - 53) in
  let q := a / 2 ^ k in
  let r := a mod 2 ^ k in
  let up := (2 ^ k <? 2 * r) || ((2 * r =? 2 ^ k) && Z.odd q) in
  Z.sgn z * ((if up then q + 1 else q) * 2 ^ k).

(** The first power of two that no [float] reaches. *)
Definition float_limit : Z := 2 ^ 1024.

(** [float(n)] for an [int]: [OverflowError] when [n] is too large. *)
Definition float_of_int (n : Z) : result Z :=
  if float_limit <=? Z.abs (round64 n) then Raise OverflowError
  else Ok (round64 n).

(** [a + b] and [a - b] on floats. *)
Definition float_add (a b : Z) : Z := round64 (a + b).
Definition float_sub (a b : Z) : Z := round64 (a - b).

(** The bound of the clock readings. *)
Definition clock_limit : Z := 2 ^ 52.

Arguments round64 : simpl never.
Arguments float_limit : simpl never.
Arguments float_of_int : simpl never.
Arguments float_add : simpl never.
Arguments float_sub : simpl never.
Arguments clock_limit : simpl never.

(** ** The environment *)

Class Upstream (W : Type) : Type := {
  (** [str.upper] of the Python runtime *)
  upper : string → string;
  (** [datetime.now().timestamp()] *)
  timestamp : W → Z;
  (** one HTTP exchange: a response or a transport exception *)
  transport : Request → W → result Response * W;
  (** on ASCII text [str.upper] changes the letters a to z only *)
  upper_ascii_text : ∀ s, is_ascii s = true → upper s = ascii_upper s;
  (** the clock reads whole seconds of the epoch, below 2^52 *)
  timestamp_range : ∀ w, 0 ≤ timestamp w < clock_limit
}.

(** ** The session client *)

Record SACClient : Type := {
  base_url : string;
  token_url : string;
  client_id : string;
  client_secret : string;
  access_token : json;
  token_expiry : Z;
  csrf_token : json
}.

(** [os.getenv(name, '')] *)
Definition getenv (environ : gmap string string) (name : string) : string :=
  default EmptyString (environ !! name).

Definition nonempty (s : string) : bool := negb (String.eqb s EmptyString).

(** [SACClient.__init__] *)
Definition __init__ (environ : gmap string string) : result SACClient :=
  let base := rstrip slash (getenv environ "SAC_BASE_URL") in
  let turl := getenv environ "SAC_TOKEN_URL" in
  let cid := getenv environ "SAC_CLIENT_ID" in
  let secret := getenv environ "SAC_CLIENT_SECRET" in
  if negb (forallb nonempty [base; turl; cid; secret])
  then Raise (ValueError "Missing SAC credentials")
  else Ok {| base_url := base; token_url := turl; client_id := cid;
             client_secret := secret; access_token := JNull;
             token_expiry := 0; csrf_token := JNull |}.

Definition set_access_token (v : json) (c : SACClient) : SACClient :=
  {| base_url := base_url c; token_url := token_url c;
     client_id := client_id c; client_secret := client_secret c;
     access_token := v; token_expiry := token_expiry c;
     csrf_token := csrf_token c |}.

Definition set_token_expiry (e : Z) (c : SACClient) : SACClient :=
  {| base_url := base_url c; token_url := token_url c;
     client_id := client_id c; client_secret := client_secret c;
     access_token := access_token c; token_expiry := e;
     csrf_token := csrf_token c |}.

Definition set_csrf_token (v : json) (c : SACClient) : SACClient :=
  {| base_url := base_url c; token_url := token_url c;
     client_id := client_id c; client_secret := client_secret c;
     access_token := access_token c; token_expiry := token_expiry c;
     csrf_token := v |}.

(** ** A state and exception monad for the methods of the client *)

Section Client.
Context {W : Type} `{U : Upstream W}.

Record State : Type := {
  self : SACClient;
  world : W;
  trace : list Event
}.

Definition M (A : Type) : Type := State → result A * State.

Definition ret {A} (a : A) : M A := λ st, (Ok a, st).

Definition raise {A} (e : exn) : M A := λ st, (Raise e, st).

Definition bind {A B} (m : M A) (k : A → M B) : M B :=
  λ st, match m st with
        | (Ok a, st') => k a st'
        | (Raise e, st') => (Raise e, st')
        end.

Definition lift {A} (r : result A) : M A := λ st, (r, st).

Definition get_self : M SACClient := λ st, (Ok (self st), st).

Definition update_self (f : SACClient → SACClient) : M unit :=
  λ st, (Ok tt, {| self := f (self st); world := world st; trace := trace st |}).

Definition now : M Z := λ st, (Ok (timestamp (world st)), st).

Definition call (site : Request → result Response → Event) (q : Request)
    : M Response :=
  λ st, let '(o, w') := transport q (world st) in
        (o, {| self := self st; world := w'; trace := trace st ++ [site q o] |}).

End Client.

Arguments State W : clear implicits.
Arguments M W A : clear implicits.

Declare Scope client_scope.
Delimit Scope client_scope with client.
Notation "x <- m ;; k" := (bind m (λ x, k))
  (at level 100, m at next level, right associativity) : client_scope.
Notation "m ;;; k" := (bind m (λ _, k))
  (at level 100, right associativity) : client_scope.

Section Methods.
Context {W : Type} `{U : Upstream W}.
Local Open Scope client_scope.

(** [self.session.post(url, data=data)] *)
Definition session_post (url : string) (data : gmap string string) : M W Response :=
  call SessionPost {| rq_method := "POST"; rq_url := url; rq_headers := ∅;
                      rq_data := data; rq_json := None |}.

(** [self.session.get(url, headers=headers)] *)
Definition session_get (url : string) (hs : gmap string hval) : M W Response :=
  call SessionGet {| rq_method := "GET"; rq_url := url; rq_headers := hs;
                     rq_data := ∅; rq_json := None |}.

(** [self.session.request(method, url, headers=headers, json=payload)] *)
Definition session_request (method url : string) (hs : gmap string hval)
    (payload : option json) : M W Response :=
  call SessionRequest {| rq_method := method; rq_url := url; rq_headers := hs;
                         rq_data := ∅; rq_json := payload |}.

(** [res.json()] *)
Definition response_json (r : Response) : result json :=
  match json_ r with
  | Some v => Ok v
  | None => Raise JSONDecodeError
  end.

(** [data[k]] *)
Definition getitem (data : json) (k : string) : result json :=
  match data with
  | JObj ms => match obj_get k ms with
               | Some v => Ok v
               | None => Raise (KeyError k)
               end
  | _ => Raise TypeError
  end.

(** [data.get(k, d)] *)
Definition dict_get (data : json) (k : string) (d : json) : result json :=
  match data with
  | JObj ms => Ok (default d (obj_get k ms))
  | _ => Raise AttributeError
  end.

(** [t + v] for a timestamp [t]: an [int] is converted to a [float] first,
    [bool] is an [int] in Python, and nothing else can be added to a
    [float]. *)
Definition add_number (t : Z) (v : json) : result Z :=
  match v with
  | JNum n =>
      match float_of_int n with
      | Ok x => Ok (float_add t x)
      | Raise e => Raise e
      end
  | JBool b => Ok (float_add t (if b then 1 else 0))
  | _ => Raise TypeError
  end.

(** The test of line 37. *)
Definition token_valid (c : SACClient) (t : Z) : bool :=
  truthy (access_token c) && (t <? token_expiry c).

(** The form of the client-credentials grant (lines 39-43). *)
Definition token_form (c : SACClient) : gmap string string :=
  {[ "grant_type" := "client_credentials";
     "client_id" := client_id c;
     "client_secret" := client_secret c ]}.

Definition _authenticate : M W json :=
  c <- get_self ;;
  t <- now ;;
  if token_valid c t then ret (access_token c)
  else
    res <- session_post (token_url c) (token_form c) ;;
    lift (raise_for_status res) ;;;
    data <- lift (response_json res) ;;
    tok <- lift (getitem data "access_token") ;;
    update_self (set_access_token tok) ;;;
    t' <- now ;;
    d <- lift (dict_get data "expires_in" (JNum 3600)) ;;
    e <- lift (add_number t' d) ;;
    update_self (set_token_expiry (float_sub e 300)) ;;;
    c' <- get_self ;;
    ret (access_token c').

(** The headers of the CSRF handshake (lines 51-55). *)
Definition csrf_headers (tok : json) : gmap string hval :=
  {[ "Authorization" := HBearer tok;
     "x-csrf-token" := HStr "fetch";
     "x-sap-sac-custom-auth" := HStr "true" ]}.

(** [res.headers.get('x-csrf-token')]: a [str] or [None]. *)
Definition header_value (r : Response) (name : string) : json :=
  match headers_get r name with
  | Some s => JStr s
  | None => JNull
  end.

Definition _fetch_csrf : M W json :=
  tok <- _authenticate ;;
  c <- get_self ;;
  res <- session_get (base_url c +:+ "/api/v1/csrf") (csrf_headers tok) ;;
  lift (raise_for_status res) ;;;
  update_self (set_csrf_token (header_value res "x-csrf-token")) ;;;
  c' <- get_self ;;
  ret (csrf_token c').

(** Line 64. *)
Definition build_url (base endpoint : string) : string :=
  if startswith endpoint "/" then base +:+ endpoint
  else base +:+ "/" +:+ endpoint.

(** The headers of lines 65-69. *)
Definition base_headers (tok : json) : gmap string hval :=
  {[ "Authorization" := HBearer tok;
     "x-sap-sac-custom-auth" := HStr "true";
     "Content-Type" := HStr "application/json" ]}.

(** The test of line 70. *)
Definition mutating (method : string) : bool :=
  bool_decide (upper method ∈ ["POST"; "PUT"; "DELETE"; "PATCH"]).

(** The test of line 76. *)
Definition csrf_rejected (r : Response) : bool :=
  (status_code r =? 403) && contains "CSRF" (upper (text r)).

Definition _sync_request (method endpoint : string) (payload : option json)
    : M W Response :=
  c <- get_self ;;
  let url := build_url (base_url c) endpoint in
  tok <- _authenticate ;;
  let hs := base_headers tok in
  hs <- (if mutating method then
           c1 <- get_self ;;
           t <- (if truthy (csrf_token c1) then ret (csrf_token c1)
                 else _fetch_csrf) ;;
           ret (<["x-csrf-token" := HTok t]> hs)
         else ret hs) ;;
  response <- session_request (upper method) url hs payload ;;
  if csrf_rejected response then
    t <- _fetch_csrf ;;
    session_request (upper method) url (<["x-csrf-token" := HTok t]> hs) payload
  else ret response.

(** Lines 64-73 on their own: the URL, the headers and the response of the
    first attempt ([_sync_request_first_attempt] relates it to
    [_sync_request]). *)
Definition first_attempt (method endpoint : string) (payload : option json)
    : M W (string * gmap string hval * Response) :=
  c <- get_self ;;
  let url := build_url (base_url c) endpoint in
  tok <- _authenticate ;;
  let hs := base_headers tok in
  hs <- (if mutating method then
           c1 <- get_self ;;
           t <- (if truthy (csrf_token c1) then ret (csrf_token c1)
                 else _fetch_csrf) ;;
           ret (<["x-csrf-token" := HTok t]> hs)
         else ret hs) ;;
  response <- session_request (upper method) url hs payload ;;
  ret (url, hs, response).

(** The request of one [session.request] call of [_sync_request]. *)
Definition main_request (method url : string) (hs : gmap string hval)
    (payload : option json) : Request :=
  {| rq_method := upper method; rq_url := url; rq_headers := hs;
     rq_data := ∅; rq_json := payload |}.

End Methods.

(** The [session.request] calls of a trace, in order. *)
Definition main_requests (tr : list Event) : list Request :=
  omap (λ ev, match ev with SessionRequest q _ => Some q | _ => None end) tr.

(** ** The relay route *)

Record SACRequest : Type := {
  method : string;
  endpoint : string;
  payload : option (list (string * json))
}.

(** The [detail] of an [HTTPException]: a literal, or
    [f"{type(e).__name__}: {str(e)}"]. *)
Inductive Detail : Type :=
| DText (s : string)
| DException (e : exn).

(** What the route answers: the returned dictionary, or an
    [HTTPException]. *)
Inductive Reply : Type :=
| Envelope (status : Z) (body : json) (hs : gmap string string)
| HTTPException (status : Z) (detail : Detail).

(** Lines 239-244. *)
Definition decode_body (response : Response) : json :=
  let content_type := default EmptyString (headers_get response "Content-Type") in
  if contains "application/json" content_type then
    match json_ response with
    | Some v => v
    | None => JStr (text response)
    end
  else JStr (text response).

(** The [except] clauses of lines 251-257, in their order. *)
Definition handle (e : exn) : Reply :=
  if is_Timeout e then HTTPException 504 (DText "SAC API timeout")
  else if is_ConnectionError e then HTTPException 502 (DText "Cannot connect to SAC")
  else HTTPException 500 (DException e).

Section Relay.
Context {W : Type} `{U : Upstream W}.

(** The state in which a client just built starts its call. *)
Definition start (client : SACClient) (w : W) : State W :=
  {| self := client; world := w; trace := [] |}.

(** [execute_sac_request]: the reply, the environment after the call and
    the upstream calls made on the way. *)
Definition execute_sac_request (environ : gmap string string) (req : SACRequest)
    (w : W) : Reply * W * list Event :=
  match __init__ environ with
  | Raise e => (handle e, w, [])
  | Ok client =>
      match _sync_request (method req) (endpoint req) (JObj <$> payload req)
              (start client w) with
      | (Ok response, st) =>
          (Envelope (status_code response) (decode_body response)
             (dict_of_headers response), world st, trace st)
      | (Raise e, st) => (handle e, world st, trace st)
      end
  end.

End Relay.

(** ** Vocabulary of the statements *)

(** The [access_token] member of a token response, when its body decodes to
    an object that has one. *)
Definition token_field (r : Response) : option json :=
  match json_ r with
  | Some (JObj ms) => obj_get "access_token" ms
  | _ => None
  end.

(** The lifetime that line 47 adds to the clock, as a [float]: 3600 when the
    response has no [expires_in] member, the member when it is an integer
    that a [float] can hold ([True] is 1 and [False] is 0), and nothing when
    the addition raises. *)
Definition lifetime (r : Response) : option Z :=
  match json_ r with
  | Some (JObj ms) =>
      match obj_get "expires_in" ms with
      | None => Some 3600
      | Some (JNum n) =>
          if float_limit <=? Z.abs (round64 n) then None else Some (round64 n)
      | Some (JBool b) => Some (if b then 1 else 0)
      | Some _ => None
      end
  | _ => None
  end.

(** The endpoint without its first character when that is a slash. *)
Definition without_leading_slash (endpoint : string) : string :=
  match endpoint with
  | String c rest => if Ascii.eqb c slash then rest else endpoint
  | EmptyString => EmptyString
  end.

(** The [Content-Type] of the response has [application/json] in it. *)
Definition declares_json (r : Response) : Prop :=
  ∃ pre post,
    default EmptyString (headers_get r "Content-Type") =
      pre +:+ "application/json" +:+ post.

Section Vocabulary.
Context {W : Type} `{U : Upstream W}.

(** The response is a 403 and [CSRF] occurs in its text once [str.upper] has
    put the text in upper case (the test of line 76). *)
Definition rejects_csrf (r : Response) : Prop :=
  status_code r = 403 ∧
  ∃ pre post, upper (text r) = pre +:+ "CSRF" +:+ post.

Local Open Scope client_scope.

Implicit Types (st : State W) (c : SACClient) (r : Response).

(** The configuration read in [__init__] is never assigned again. *)
Definition same_config (c c' : SACClient) : Prop :=
  base_url c' = base_url c ∧ token_url c' = token_url c ∧
  client_id c' = client_id c ∧ client_secret c' = client_secret c.

(** A step that makes no [session.request] call and keeps the
    configuration. *)
Definition auxiliary (st st' : State W) : Prop :=
  same_config (self st) (self st') ∧
  ∃ evs, trace st' = trace st ++ evs ∧ main_requests evs = [].

(** The token request of lines 39-43. *)
Definition token_request c : Request :=
  {| rq_method := "POST"; rq_url := token_url c; rq_headers := ∅;
     rq_data := token_form c; rq_json := None |}.

(** The CSRF handshake request of line 56. *)
Definition csrf_request c (tok : json) : Request :=
  {| rq_method := "GET"; rq_url := base_url c +:+ "/api/v1/csrf";
     rq_headers := csrf_headers tok; rq_data := ∅; rq_json := None |}.

(** Exceptions of the transport are never caught by the client.
    [faithful st res st']: a run from [st] to [st'] with result [res] only
    added events to the trace, and an exchange that raised is the result of
    the run. *)
Definition faithful {A} st (res : result A) st' : Prop :=
  ∃ evs, trace st' = trace st ++ evs ∧
    ∀ ev e, ev ∈ evs → outcome ev = Raise e → res = Raise e.

Definition Faithful {A} (m : M W A) : Prop :=
  ∀ st res st', m st = (res, st') → faithful st res st'.

(** Lines 44-48 as a function of the response and of the clock read on
    line 47: the value returned and the fields assigned. *)
Definition token_outcome c r (t' : Z) : result json * SACClient :=
  match raise_for_status r with
  | Raise e => (Raise e, c)
  | Ok _ =>
    match response_json r with
    | Raise e => (Raise e, c)
    | Ok data =>
      match getitem data "access_token" with
      | Raise e => (Raise e, c)
      | Ok tok =>
        match dict_get data "expires_in" (JNum 3600) with
        | Raise e => (Raise e, set_access_token tok c)
        | Ok d =>
          match add_number t' d with
          | Raise e => (Raise e, set_access_token tok c)
          | Ok e =>
              (Ok tok,
               set_token_expiry (float_sub e 300) (set_access_token tok c))
          end
        end
      end
    end
  end.

(** The CSRF header of lines 70-71. *)
Definition attach_csrf (method : string) (hs : gmap string hval)
    : M W (gmap string hval) :=
  if mutating method then
    c1 <- get_self ;;
    t <- (if truthy (csrf_token c1) then ret (csrf_token c1) else _fetch_csrf) ;;
    ret (<["x-csrf-token" := HTok t]> hs)
  else ret hs.

End Vocabulary.

(** ** The page routes *)

(** What [serve_ui] and [serve_spa] answer: the page, or
    [HTTPException(status_code=404)]. *)
Inductive PageReply : Type :=
| HTMLResponse (content : string)
| PageException (status : Z).

Section Pages.
(** The text of the console page. *)
Variable INDEX_HTML : string.

Definition serve_ui : PageReply := HTMLResponse INDEX_HTML.

Definition serve_spa (full_path : string) : PageReply :=
  if startswith full_path "api/" then PageException 404
  else HTMLResponse INDEX_HTML.

End Pages.

(** ** Vocabulary of the further properties *)

(** [n] times the character [ch]. *)
Fixpoint repeat_char (ch : ascii) (n : nat) : string :=
  match n with
  | O => EmptyString
  | S n' => String ch (repeat_char ch n')
  end.

Section MoreVocabulary.
Context {W : Type} `{U : Upstream W}.

Implicit Types (st : State W).

(** A run whose exchanges stop at the first one that raises: an exchange
    that raised is the last one of the run and its exception is the result
    of the run. *)
Definition abrupt {A} st (res : result A) st' : Prop :=
  ∃ evs, trace st' = trace st ++ evs ∧
    ∀ pre ev post e, evs = pre ++ ev :: post → outcome ev = Raise e →
      post = [] ∧ res = Raise e.

Definition Abrupt {A} (m : M W A) : Prop :=
  ∀ st res st', m st = (res, st') → abrupt st res st'.

(** A run that made at most [n] exchanges. *)
Definition within (n : nat) st st' : Prop :=
  ∃ evs, trace st' = trace st ++ evs ∧ (length evs ≤ n)%nat.

(** A run that, when it raises, raises what its last exchange raised, or an
    exception of the client's own that is neither a timeout nor a connection
    error. *)
Definition sourced {A} st (res : result A) st' : Prop :=
  ∃ evs, trace st' = trace st ++ evs ∧
    ∀ e, res = Raise e →
      (∃ ev, last evs = Some ev ∧ outcome ev = Raise e) ∨
      (is_Timeout e = false ∧ is_ConnectionError e = false).

Definition Sourced {A} (m : M W A) : Prop :=
  ∀ st res st', m st = (res, st') → sourced st res st'.

End MoreVocabulary.

(** The [requests] calls of a result raise nothing transport-like. *)
Definition internal {A} (r : result A) : Prop :=
  ∀ e, r = Raise e → is_Timeout e = false ∧ is_ConnectionError e = false.

(** ** A scripted upstream

    An environment that answers the successive exchanges from a list; each
    entry carries the seconds the exchange takes.  With the script used up the
    connection fails. *)
Module Scripted.

Record World : Type := {
  clock : Z;
  script : list (Z * result Response)
}.

Definition exchange (q : Request) (w : World) : result Response * World :=
  match script w with
  | [] => (Raise ConnectionError, w)
  | (dt, o) :: rest => (o, {| clock := clock w + dt; script := rest |})
  end.

(** The clock of the script, kept within the range of a clock. *)
Definition reading (w : World) : Z :=
  Z.max 0 (Z.min (clock w) (clock_limit - 1)).

#[export, refine] Instance upstream : Upstream World :=
  {| upper := ascii_upper; timestamp := reading; transport := exchange |}.
Proof.
  - reflexivity.
  - intros w. unfold reading.
    assert (0 < clock_limit) by reflexivity. lia.
Defined.

Definition response (status : Z) (body : string) (parsed : option json)
    (hs : list (string * (string * string))) : Response :=
  {| status_code := status; text := body; json_ := parsed;
     headers := list_to_map hs |}.

Definition client (tok : json) (expiry : Z) (csrf : json) : SACClient :=
  {| base_url := "https://sac.example"; token_url := "https://auth.example/token";
     client_id := "id"; client_secret := "secret";
     access_token := tok; token_expiry := expiry; csrf_token := csrf |}.

Definition environ : gmap string string :=
  {[ "SAC_BASE_URL" := "https://sac.example/";
     "SAC_TOKEN_URL" := "https://auth.example/token";
     "SAC_CLIENT_ID" := "id";
     "SAC_CLIENT_SECRET" := "secret" ]}.

Definition token_reply (tok : string) (expires_in : Z) : result Response :=
  Ok (response 200 "" (Some (JObj [("access_token", JStr tok);
                                     ("expires_in", JNum expires_in)])) []).

Definition csrf_reply (t : string) : result Response :=
  Ok (response 200 "" None [("x-csrf-token", ("X-CSRF-Token", t))]).

Definition run (c : SACClient) (t : Z) (replies : list (Z * result Response))
    : State World :=
  start c {| clock := t; script := replies |}.

(** A client holding token [A] until 2000, asked at 1000 and at 2000. *)
Definition st_cached : State World := run (client (JStr "A") 2000 JNull) 1000 [].
Definition st_expired : State World :=
  run (client (JStr "A") 2000 JNull) 2000 [(1, token_reply "B" 3600)].



(** The token endpoint answers 500, and 300 with a token. *)
Definition st_500 : State World :=
  run (client JNull 0 JNull) 1000 [(1, Ok (response 500 "down" None []))].
Definition token_only : list (string * json) := [("access_token", JStr "A")].
Definition st_300 : State World :=
  run (client JNull 0 JNull) 1000
    [(1, Ok (response 300 "" (Some (JObj token_only)) []))].

(** The token endpoint gives a lifetime too large for a [float], one that a
    [float] cannot hold exactly, and an empty token. *)
Definition st_huge_lifetime : State World :=
  run (client JNull 0 JNull) 1000 [(1, token_reply "B" (10 ^ 400))].

Definition rejection (body : string) : result Response :=
  Ok (response 403 body None []).

(** A POST whose CSRF token is rejected on both attempts, and one whose
    second attempt times out. *)
Definition st_rejected_twice : State World :=
  run (client (JStr "A") 5000 (JStr "c1")) 1000
    [(1, rejection "Invalid CSRF token"); (1, csrf_reply "c2");
     (1, rejection "csrf token still invalid")].
Definition st_retry_timeout : State World :=
  run (client (JStr "A") 5000 (JStr "c1")) 1000
    [(1, rejection "Invalid CSRF token"); (1, csrf_reply "c2");
     (30, Raise ReadTimeout)].

(** A rejection after which the access token has expired: the forced fetch
    gets a new access token [B] on its way. *)
Definition st_refresh : State World :=
  run (client (JStr "A") 1002 (JStr "c1")) 1000
    [(5, rejection "Invalid CSRF token"); (1, token_reply "B" 3600);
     (1, csrf_reply "c2"); (1, Ok (response 200 "done" None []))].

(** A GET that is rejected for CSRF, and one that is answered. *)
Definition st_get_rejected : State World :=
  run (client (JStr "A") 5000 JNull) 1000
    [(1, rejection "CSRF token required"); (1, csrf_reply "c2");
     (1, Ok (response 200 "done" None []))].
Definition st_get : State World :=
  run (client (JStr "A") 5000 JNull) 1000 [(1, Ok (response 200 "1.0" None []))].

(** A POST of a client without CSRF token. *)
Definition st_post : State World :=
  run (client (JStr "A") 5000 JNull) 1000
    [(1, csrf_reply "c1"); (1, Ok (response 201 "created" None []))].

(** The states after the first attempt and after the forced fetch. *)
Definition after_first (m : string) (st : State World) : State World :=
  (first_attempt m "/models" None st).2.
Definition after_fetch (m : string) (st : State World) : State World :=
  (_fetch_csrf (after_first m st)).2.

(** The URL and the headers of the requests to [/models] of these scripts. *)
Definition models_url : string := "https://sac.example/models".
Definition with_csrf (tok t : string) : gmap string hval :=
  <["x-csrf-token" := HTok (JStr t)]> (base_headers (JStr tok)).

Definition request (m e : string) : SACRequest :=
  {| method := m; endpoint := e; payload := None |}.

Definition json_headers : list (string * (string * string)) :=
  [("content-type", ("Content-Type", "application/json; charset=utf-8"))].
Definition text_headers : list (string * (string * string)) :=
  [("content-type", ("Content-Type", "text/plain"))].

(** Upstreams of a relay call: the token endpoint, then the platform. *)
Definition upstream_json : World :=
  {| clock := 1000;
     script := [(1, token_reply "A" 3600);
                (1, Ok (response 404 "{}" (Some (JObj [])) json_headers))] |}.
Definition upstream_text : World :=
  {| clock := 1000;
     script := [(1, token_reply "A" 3600);
                (1, Ok (response 200 "1" (Some (JNum 1)) text_headers))] |}.
Definition upstream_down : World :=
  {| clock := 1000; script := [] |}.
Definition upstream_post : World :=
  {| clock := 1000;
     script := [(1, token_reply "A" 3600); (1, csrf_reply "c1");
                (1, Ok (response 201 "created" None []));
                (1, token_reply "B" 3600); (1, csrf_reply "c2");
                (1, Ok (response 201 "created" None []))] |}.

Definition st_bad_lifetime : State World :=
  run (client (JStr "old") 900 (JStr "c1")) 1000
    [(1, Ok (response 200 ""
               (Some (JObj [("access_token", JStr "A");
                            ("expires_in", JStr "3600")])) []))].

(** Process environments: a base URL with trailing slashes, one made of
    slashes only, and one without client secret. *)
Definition environ_slashes : gmap string string :=
  <["SAC_BASE_URL" := "https://sac.example///"]> environ.
Definition environ_only_slashes : gmap string string :=
  <["SAC_BASE_URL" := "//"]> environ.
Definition environ_no_secret : gmap string string :=
  delete "SAC_CLIENT_SECRET" environ.

(** A CSRF endpoint that answers, and one that answers 500. *)
Definition st_fetch : State World :=
  run (client (JStr "A") 5000 JNull) 1000 [(1, csrf_reply "c1")].
Definition st_fetch_500 : State World :=
  run (client (JStr "A") 5000 (JStr "c1")) 1000
    [(1, Ok (response 500 "down" None []))].

(** A POST that is rejected for CSRF while the CSRF endpoint is down. *)
Definition st_fetch_fails : State World :=
  run (client (JStr "A") 5000 (JStr "c1")) 1000
    [(1, rejection "Invalid CSRF token");
     (1, Ok (response 500 "down" None []))].

(** A GET that times out. *)
Definition st_get_timeout : State World :=
  run (client (JStr "A") 5000 JNull) 1000 [(30, Raise ReadTimeout)].


(** A token endpoint that refuses the credentials. *)
Definition upstream_unauthorized : World :=
  {| clock := 1000; script := [(1, Ok (response 401 "denied" None []))] |}.

(** Tokens of two minutes and a rejected POST: the longest call. *)
Definition st_longest : State World :=
  run (client JNull 0 JNull) 1000
    [(1, token_reply "A" 120); (1, token_reply "B" 120); (1, csrf_reply "c1");
     (1, rejection "Invalid CSRF token");
     (1, token_reply "C" 120); (1, csrf_reply "c2");
     (1, Ok (response 201 "created" None []))].

End Scripted.

(** * Properties *)

(** ** Strings *)

Lemma append_nil (s : string) : EmptyString +:+ s = s.
Proof. reflexivity. Qed.

Lemma append_cons (c : ascii) (a b : string) :
  String c a +:+ b = String c (a +:+ b).
Proof. reflexivity. Qed.

Lemma append_empty_inv (a b : string) :
  a +:+ b = EmptyString → a = EmptyString ∧ b = EmptyString.
Proof.
  destruct a; [rewrite append_nil; now intros -> | rewrite append_cons; discriminate].
Qed.

Lemma prefix_spec (p s : string) :
  String.prefix p s = true ↔ ∃ post, s = p +:+ post.
Proof.
  revert s. induction p as [|c p IH]; intros s.
  - split; [intros _; now exists s | intros _; now destruct s].
  - destruct s as [|d s]; simpl.
    + split; [discriminate | intros [post [=]]].
    + destruct (Ascii.ascii_dec c d) as [->|Hne].
      * rewrite IH. split; intros [post Hp]; exists post.
        -- now rewrite append_cons, Hp.
        -- rewrite append_cons in Hp. congruence.
      * split; [discriminate |]. intros [post Hp].
        rewrite append_cons in Hp. congruence.
Qed.

Lemma contains_spec (n s : string) :
  contains n s = true ↔ ∃ pre post, s = pre +:+ n +:+ post.
Proof.
  induction s as [|c s IH].
  - change (contains n EmptyString) with (String.prefix n EmptyString || false).
    rewrite orb_false_r, prefix_spec. split.
    + intros [post Hp]. now exists EmptyString, post.
    + intros (pre & post & Hp). symmetry in Hp.
      apply append_empty_inv in Hp as [-> Hp]. exists post. now rewrite Hp.
  - change (contains n (String c s))
      with (String.prefix n (String c s) || contains n s).
    rewrite orb_true_iff, prefix_spec, IH. split.
    + intros [[post Hp] | (pre & post & Hp)].
      * now exists EmptyString, post.
      * exists (String c pre), post. now rewrite append_cons, Hp.
    + intros ([|d pre] & post & Hp).
      * left. now exists post.
      * right. rewrite append_cons in Hp. injection Hp as _ Hp. now exists pre, post.
Qed.

Lemma upper_append (a b : string) :
  ascii_upper (a +:+ b) = ascii_upper a +:+ ascii_upper b.
Proof.
  induction a as [|c a IH]; [reflexivity |].
  rewrite append_cons. simpl. now rewrite IH, append_cons.
Qed.

Lemma upper_split (s a b : string) :
  ascii_upper s = a +:+ b →
  ∃ s1 s2, s = s1 +:+ s2 ∧ ascii_upper s1 = a ∧ ascii_upper s2 = b.
Proof.
  revert s. induction a as [|c a IH]; intros s Hs.
  - now exists EmptyString, s.
  - destruct s as [|d s]; [discriminate |].
    rewrite append_cons in Hs. simpl in Hs. injection Hs as Hc Hs.
    destruct (IH _ Hs) as (s1 & s2 & -> & H1 & H2).
    exists (String d s1), s2. rewrite append_cons. simpl. now rewrite Hc, H1.
Qed.

(** A substring of [s] upper-cases to [n] exactly when [n] occurs in
    [s.upper()]. *)
Lemma contains_upper (n s : string) :
  contains n (ascii_upper s) = true ↔
  ∃ pre mid post, s = pre +:+ mid +:+ post ∧ ascii_upper mid = n.
Proof.
  rewrite contains_spec. split.
  - intros (pre' & post' & Hs).
    apply upper_split in Hs as (pre & rest & -> & _ & Hrest).
    apply upper_split in Hrest as (mid & post & -> & Hmid & _).
    now exists pre, mid, post.
  - intros (pre & mid & post & -> & <-).
    exists (ascii_upper pre), (ascii_upper post). now rewrite !upper_append.
Qed.

Lemma rstrip_no_trailing (ch : ascii) (s t : string) :
  rstrip ch s ≠ t +:+ String ch EmptyString.
Proof.
  revert t. induction s as [|c s IH]; intros t; simpl.
  - now destruct t.
  - destruct (Ascii.eqb c ch && String.eqb (rstrip ch s) EmptyString) eqn:Hc.
    + now destruct t.
    + destruct t as [|d t].
      * rewrite append_nil. intros [= -> Hs]. rewrite Hs in Hc.
        now rewrite Ascii.eqb_refl in Hc.
      * rewrite append_cons. intros [= _ Hs]. now apply IH in Hs.
Qed.

Lemma prefix_cons (c d : ascii) (p s : string) :
  String.prefix (String c p) (String d s) =
    bool_decide (c = d) && String.prefix p s.
Proof.
  change (String.prefix (String c p) (String d s))
    with (match Ascii.ascii_dec c d with
          | left _ => String.prefix p s
          | right _ => false
          end).
  destruct (Ascii.ascii_dec c d) as [->|Hne].
  - now rewrite bool_decide_eq_true_2.
  - now rewrite bool_decide_eq_false_2.
Qed.

Lemma startswith_slash (e : string) :
  startswith e "/" = true ↔ ∃ rest, e = String slash rest.
Proof.
  unfold startswith. rewrite prefix_spec. split.
  - intros [post ->]. now exists post.
  - intros [rest ->]. now exists rest.
Qed.

Lemma startswith_slash_false (e : string) :
  startswith e "/" = false → without_leading_slash e = e.
Proof.
  destruct e as [|c e]; [reflexivity |]. intros Hs. simpl.
  destruct (Ascii.eqb c slash) eqn:Hc; [| reflexivity].
  apply Ascii.eqb_eq in Hc as ->.
  assert (startswith (String slash e) "/" = true) as Ht
    by (apply startswith_slash; now exists e).
  congruence.
Qed.

(** ** Floats that hold integers *)

Lemma pow_2_53 : 2 ^ 53 = 9007199254740992.
Proof. reflexivity. Qed.


Lemma float_limit_large : 2 ^ 53 < float_limit.
Proof. vm_compute. reflexivity. Qed.

(** Integers up to 2^53 in absolute value are floats. *)
Lemma round64_small (z : Z) : Z.abs z ≤ 2 ^ 53 → round64 z = z.
Proof.
  intros Hz. destruct (Z.eq_dec (Z.abs z) (2 ^ 53)) as [Heq | Hne].
  - rewrite pow_2_53 in Heq.
    assert (z = 9007199254740992 ∨ z = -9007199254740992) as [-> | ->]
      by lia; vm_compute; reflexivity.
  - assert (Z.log2 (Z.abs z) < 53) as Hlog.
    { destruct (Z.eq_dec (Z.abs z) 0) as [-> | Hnz]; [reflexivity |].
      apply Z.log2_lt_pow2; lia. }
    unfold round64. cbv zeta.
    replace (Z.max 0 (Z.log2 (Z.abs z) + 1 - 53)) with 0 by lia.
    rewrite Z.pow_0_r, Z.div_1_r, Z.mod_1_r. simpl. lia.
Qed.


Lemma float_of_int_small (n : Z) : Z.abs n ≤ 2 ^ 53 → float_of_int n = Ok n.
Proof.
  intros Hn. unfold float_of_int. rewrite (round64_small n Hn).
  pose proof float_limit_large. now rewrite (proj2 (Z.leb_gt _ _)) by lia.
Qed.

Lemma float_of_int_spec (n : Z) :
  float_of_int n =
    if float_limit <=? Z.abs (round64 n) then Raise OverflowError
    else Ok (round64 n).
Proof. reflexivity. Qed.



Lemma main_requests_app (l l' : list Event) :
  main_requests (l ++ l') = main_requests l ++ main_requests l'.
Proof. unfold main_requests. apply omap_app. Qed.

(** ** The monad *)

Section Properties.
Context {W : Type} `{U : Upstream W}.
Local Open Scope client_scope.

Implicit Types (st : State W) (c : SACClient) (r : Response).

Lemma auxiliary_refl st : auxiliary st st.
Proof.
  split; [done |]. exists []. now rewrite app_nil_r.
Qed.

Lemma auxiliary_trans st1 st2 st3 :
  auxiliary st1 st2 → auxiliary st2 st3 → auxiliary st1 st3.
Proof.
  intros [(?&?&?&?) (e1 & T1 & M1)] [(?&?&?&?) (e2 & T2 & M2)].
  split; [unfold same_config; repeat split; congruence |].
  exists (e1 ++ e2). rewrite T2, T1, <- List.app_assoc. split; [done |].
  now rewrite main_requests_app, M1, M2.
Qed.

Lemma auxiliary_main st st' :
  auxiliary st st' → main_requests (trace st') = main_requests (trace st).
Proof.
  intros [_ (evs & -> & Hm)]. now rewrite main_requests_app, Hm, app_nil_r.
Qed.

Lemma bind_run {A B} (m : M W A) (k : A → M W B) st :
  bind m k st =
    match m st with
    | (Ok a, st') => k a st'
    | (Raise e, st') => (Raise e, st')
    end.
Proof. reflexivity. Qed.

Lemma bind_get_self {B} (k : SACClient → M W B) st :
  bind get_self k st = k (self st) st.
Proof. reflexivity. Qed.

Lemma bind_Ok {A B} (m : M W A) (k : A → M W B) st a st' :
  m st = (Ok a, st') → bind m k st = k a st'.
Proof. unfold bind. now intros ->. Qed.

Lemma bind_Raise {A B} (m : M W A) (k : A → M W B) st e st' :
  m st = (Raise e, st') → bind m k st = (Raise e, st').
Proof. unfold bind. now intros ->. Qed.




Lemma faithful_refl {A} st (res : result A) : faithful st res st.
Proof.
  exists []. rewrite app_nil_r. split; [done |].
  intros ev e Hev. now apply elem_of_nil in Hev.
Qed.

Lemma Faithful_ret {A} (a : A) : Faithful (ret a : M W A).
Proof. intros st res st' [= <- <-]. apply faithful_refl. Qed.

Lemma Faithful_raise {A} e : Faithful (raise e : M W A).
Proof. intros st res st' [= <- <-]. apply faithful_refl. Qed.

Lemma Faithful_lift {A} (r : result A) : Faithful (lift r : M W A).
Proof. intros st res st' [= <- <-]. apply faithful_refl. Qed.

Lemma Faithful_get_self : Faithful (get_self : M W SACClient).
Proof. intros st res st' [= <- <-]. apply faithful_refl. Qed.

Lemma Faithful_now : Faithful now.
Proof. intros st res st' [= <- <-]. apply faithful_refl. Qed.

Lemma Faithful_update_self f : Faithful (update_self f : M W unit).
Proof.
  intros st res st' [= <- <-]. exists []. simpl. rewrite app_nil_r.
  split; [done |]. intros ev e Hev. now apply elem_of_nil in Hev.
Qed.

Lemma Faithful_call site q :
  (∀ o, outcome (site q o) = o) → Faithful (call site q).
Proof.
  intros Hsite st res st'. unfold call.
  destruct (transport q (world st)) as [o w']. intros [= <- <-].
  exists [site q o]. split; [done |].
  intros ev e ->%list_elem_of_singleton. now rewrite Hsite.
Qed.

Lemma Faithful_bind {A B} (m : M W A) (k : A → M W B) :
  Faithful m → (∀ a, Faithful (k a)) → Faithful (bind m k).
Proof.
  intros Hm Hk st res st'. rewrite bind_run.
  destruct (m st) as [[a|e] st1] eqn:Em; apply Hm in Em as (ev1 & T1 & P1).
  - intros (ev2 & T2 & P2)%Hk. exists (ev1 ++ ev2).
    rewrite T2, T1, <- List.app_assoc. split; [done |].
    intros ev e [Hin|Hin]%elem_of_app Ho; [| eauto].
    now specialize (P1 _ _ Hin Ho).
  - intros [= <- <-]. exists ev1. split; [done |].
    intros ev e' Hin Ho. specialize (P1 _ _ Hin Ho). congruence.
Qed.

Lemma Faithful_if {A} (b : bool) (m1 m2 : M W A) :
  Faithful m1 → Faithful m2 → Faithful (if b then m1 else m2).
Proof. now destruct b. Qed.

Create HintDb faithful.
#[local] Hint Resolve Faithful_ret Faithful_raise Faithful_lift
  Faithful_get_self Faithful_now Faithful_update_self Faithful_bind
  Faithful_if : faithful.
#[local] Hint Extern 1 (Faithful (call _ _)) =>
  apply Faithful_call; reflexivity : faithful.

Ltac faithful_run :=
  repeat first
    [ progress (intros)
    | progress (cbv zeta)
    | assumption
    | simple apply Faithful_bind
    | simple apply Faithful_if
    | solve [auto with faithful] ].

(** ** [_authenticate] *)

Lemma authenticate_cached st :
  token_valid (self st) (timestamp (world st)) = true →
  _authenticate st = (Ok (access_token (self st)), st).
Proof.
  intros Hv. unfold _authenticate, bind, get_self, now. now rewrite Hv.
Qed.


Lemma authenticate_fresh st :
  token_valid (self st) (timestamp (world st)) = false →
  _authenticate st =
    let '(o, w') := transport (token_request (self st)) (world st) in
    let tr := trace st ++ [SessionPost (token_request (self st)) o] in
    match o with
    | Raise e => (Raise e, {| self := self st; world := w'; trace := tr |})
    | Ok r =>
        let '(v, c') := token_outcome (self st) r (timestamp w') in
        (v, {| self := c'; world := w'; trace := tr |})
    end.
Proof.
  intros Hv.
  unfold _authenticate, bind, get_self, now, session_post, call, token_request.
  rewrite Hv.
  destruct (transport _ (world st)) as [[r|e] w']; [| reflexivity].
  unfold token_outcome, lift, update_self, ret; simpl.
  destruct (raise_for_status r); [| reflexivity].
  destruct (response_json r) as [data|]; [| reflexivity].
  destruct (getitem data "access_token") as [tok|]; simpl; [| reflexivity].
  destruct (dict_get data "expires_in" (JNum 3600)) as [d|]; simpl; [| reflexivity].
  destruct (add_number (timestamp w') d); reflexivity.
Qed.

Lemma token_outcome_config c r t' :
  same_config c (token_outcome c r t').2 ∧
  csrf_token (token_outcome c r t').2 = csrf_token c.
Proof.
  unfold token_outcome, same_config.
  repeat case_match; simpl; auto.
Qed.

Lemma token_outcome_Ok c r t' tok c' :
  token_outcome c r t' = (Ok tok, c') → access_token c' = tok.
Proof.
  unfold token_outcome. repeat case_match; intros [= <- <-]; reflexivity.
Qed.

Lemma authenticate_auxiliary st o st' :
  _authenticate st = (o, st') →
  auxiliary st st' ∧ csrf_token (self st') = csrf_token (self st).
Proof.
  destruct (token_valid (self st) (timestamp (world st))) eqn:Hv.
  - rewrite authenticate_cached by done. intros [= <- <-].
    split; [apply auxiliary_refl | done].
  - rewrite authenticate_fresh by done.
    destruct (transport _ (world st)) as [[r|e] w'].
    + pose proof (token_outcome_config (self st) r (timestamp w')) as [Hc Hx].
      destruct (token_outcome (self st) r (timestamp w')) as [v c'].
      intros [= <- <-]; simpl in *. split; [| done].
      split; [done |]. now eexists.
    + intros [= <- <-]; simpl. split; [| done].
      split; [done |]. now eexists.
Qed.

Lemma authenticate_Ok st tok st' :
  _authenticate st = (Ok tok, st') → access_token (self st') = tok.
Proof.
  destruct (token_valid (self st) (timestamp (world st))) eqn:Hv.
  - rewrite authenticate_cached by done. now intros [= <- <-].
  - rewrite authenticate_fresh by done.
    destruct (transport _ (world st)) as [[r|e] w']; [| discriminate].
    destruct (token_outcome _ r _) as [v c'] eqn:Ho.
    intros [= -> <-]; simpl. eapply token_outcome_Ok, Ho.
Qed.

(** ** [_fetch_csrf] *)

Lemma fetch_csrf_run st :
  _fetch_csrf st =
    match _authenticate st with
    | (Raise e, sta) => (Raise e, sta)
    | (Ok tok, sta) =>
        let q := csrf_request (self sta) tok in
        let '(o, w') := transport q (world sta) in
        let tr := trace sta ++ [SessionGet q o] in
        match o with
        | Raise e => (Raise e, {| self := self sta; world := w'; trace := tr |})
        | Ok r =>
            match raise_for_status r with
            | Raise e =>
                (Raise e, {| self := self sta; world := w'; trace := tr |})
            | Ok _ =>
                let t := header_value r "x-csrf-token" in
                (Ok t, {| self := set_csrf_token t (self sta); world := w';
                          trace := tr |})
            end
        end
    end.
Proof.
  unfold _fetch_csrf, bind at 1.
  destruct (_authenticate st) as [[tok|e] sta]; [| reflexivity].
  unfold bind, get_self, session_get, call, csrf_request; simpl.
  destruct (transport _ (world sta)) as [[r|e] w']; [| reflexivity].
  unfold lift, update_self, ret; simpl.
  destruct (raise_for_status r); reflexivity.
Qed.

Lemma fetch_csrf_auxiliary st o st' :
  _fetch_csrf st = (o, st') → auxiliary st st'.
Proof.
  rewrite fetch_csrf_run.
  destruct (_authenticate st) as [[tok|e] sta] eqn:Ha;
    apply authenticate_auxiliary in Ha as [Ha _].
  - intros Hr. cbv zeta in Hr. eapply auxiliary_trans; [exact Ha |].
    destruct (transport _ (world sta)) as [[r|e] w'].
    + destruct (raise_for_status r); injection Hr as <- <-;
        (split; [done | now eexists]).
    + injection Hr as <- <-. split; [done | now eexists].
  - now intros [= <- <-].
Qed.

(** A fetch that succeeds has made the handshake request, whatever token was
    cached, and returns and caches the value of the response header. *)
Lemma fetch_csrf_Ok st t st' :
  _fetch_csrf st = (Ok t, st') →
  ∃ tok sta r,
    _authenticate st = (Ok tok, sta) ∧
    transport (csrf_request (self sta) tok) (world sta) = (Ok r, world st') ∧
    raise_for_status r = Ok tt ∧
    t = header_value r "x-csrf-token" ∧
    csrf_token (self st') = t ∧
    access_token (self st') = access_token (self sta) ∧
    trace st' = trace sta ++ [SessionGet (csrf_request (self sta) tok) (Ok r)].
Proof.
  rewrite fetch_csrf_run.
  destruct (_authenticate st) as [[tok|e] sta]; [| discriminate].
  cbv zeta.
  destruct (transport _ (world sta)) as [[r|e] w'] eqn:Ht; [| discriminate].
  destruct (raise_for_status r) as [[]|] eqn:Hs; [| discriminate].
  intros [= <- <-]. exists tok, sta, r. simpl. repeat split; done.
Qed.

(** ** [_sync_request] *)


Lemma attach_csrf_auxiliary method hs st o st' :
  attach_csrf method hs st = (o, st') → auxiliary st st'.
Proof.
  unfold attach_csrf. destruct (mutating method).
  - unfold bind at 1, get_self.
    destruct (truthy (csrf_token (self st))).
    + unfold bind, ret. intros [= <- <-]. apply auxiliary_refl.
    + unfold bind. destruct (_fetch_csrf st) as [[t|e] stb] eqn:Hf;
        unfold ret; intros [= <- <-]; eapply fetch_csrf_auxiliary, Hf.
  - unfold ret. intros [= <- <-]. apply auxiliary_refl.
Qed.

Lemma first_attempt_run method endpoint payload st :
  first_attempt method endpoint payload st =
    let url := build_url (base_url (self st)) endpoint in
    match _authenticate st with
    | (Raise e, sta) => (Raise e, sta)
    | (Ok tok, sta) =>
        match attach_csrf method (base_headers tok) sta with
        | (Raise e, stb) => (Raise e, stb)
        | (Ok hs, stb) =>
            let q := main_request method url hs payload in
            let '(o, w') := transport q (world stb) in
            let st1 := {| self := self stb; world := w';
                          trace := trace stb ++ [SessionRequest q o] |} in
            match o with
            | Raise e => (Raise e, st1)
            | Ok response => (Ok (url, hs, response), st1)
            end
        end
    end.
Proof.
  unfold first_attempt. rewrite bind_get_self, bind_run.
  destruct (_authenticate st) as [[tok|e] sta]; [| reflexivity].
  rewrite bind_run. fold (attach_csrf method (base_headers tok)).
  destruct (attach_csrf method (base_headers tok) sta) as [[hs|e] stb];
    [| reflexivity].
  unfold bind, session_request, call, main_request; simpl.
  destruct (transport _ (world stb)) as [[r|e] w']; reflexivity.
Qed.

(** [_sync_request] is the first attempt followed by lines 76-79. *)
Lemma _sync_request_first_attempt method endpoint payload st :
  _sync_request method endpoint payload st =
    match first_attempt method endpoint payload st with
    | (Raise e, st1) => (Raise e, st1)
    | (Ok (url, hs, response), st1) =>
        if csrf_rejected response then
          (t <- _fetch_csrf ;;
           session_request (upper method) url
             (<["x-csrf-token" := HTok t]> hs) payload) st1
        else (Ok response, st1)
    end.
Proof.
  unfold _sync_request, first_attempt. rewrite !bind_get_self, !bind_run.
  destruct (_authenticate st) as [[tok|e] sta]; [| reflexivity].
  rewrite !bind_run. fold (attach_csrf method (base_headers tok)).
  destruct (attach_csrf method (base_headers tok) sta) as [[hs|e] stb];
    [| reflexivity].
  rewrite !bind_run.
  destruct (session_request _ _ hs payload stb) as [[r|e] st1]; [| reflexivity].
  unfold ret. destruct (csrf_rejected r); reflexivity.
Qed.

Lemma Faithful_authenticate : Faithful _authenticate.
Proof. unfold _authenticate, session_post. faithful_run. Qed.

Lemma Faithful_fetch_csrf : Faithful _fetch_csrf.
Proof.
  unfold _fetch_csrf, session_get.
  apply Faithful_bind; [apply Faithful_authenticate | faithful_run].
Qed.


(** What lines 44-48 do, read off the response. *)
Lemma token_outcome_spec c r t' :
  token_outcome c r t' =
    if (400 <=? status_code r) && (status_code r <? 600)
    then (Raise (HTTPError (status_code r)), c)
    else match token_field r, lifetime r with
         | Some tok, Some E =>
             (Ok tok,
              set_token_expiry (float_sub (float_add t' E) 300)
                (set_access_token tok c))
         | Some tok, None =>
             ((token_outcome c r t').1, set_access_token tok c)
         | None, _ => ((token_outcome c r t').1, c)
         end.
Proof.
  unfold token_outcome, raise_for_status, token_field, lifetime, response_json.
  destruct ((400 <=? status_code r) && (status_code r <? 600)); [reflexivity |].
  destruct (json_ r) as [[| | | | |ms]|]; try reflexivity.
  unfold getitem, dict_get.
  destruct (obj_get "access_token" ms) as [tok|]; [| reflexivity].
  destruct (obj_get "expires_in" ms) as [[| |n| | |]|]; simpl;
    try reflexivity.
  rewrite float_of_int_spec.
  destruct (float_limit <=? Z.abs (round64 n)); reflexivity.
Qed.

Lemma token_outcome_fails c r t' :
  (∃ e, (token_outcome c r t').1 = Raise e) ↔
  400 ≤ status_code r < 600 ∨ token_field r = None ∨ lifetime r = None.
Proof.
  unfold token_outcome, raise_for_status, token_field, lifetime, response_json.
  destruct (400 <=? status_code r) eqn:H4; destruct (status_code r <? 600) eqn:H6;
    simpl.
  1: { split; [intros _; left; lia | eauto]. }
  all: destruct (json_ r) as [[| | | | |ms]|]; simpl;
    try (split; [intros _; right; left; reflexivity | eauto]).
  all: unfold dict_get; destruct (obj_get "access_token" ms) as [tok|]; simpl;
    try (split; [intros _; right; left; reflexivity | eauto]).
  all: destruct (obj_get "expires_in" ms) as [[| |n| | |]|]; simpl;
    try rewrite float_of_int_spec;
    try rewrite float_of_int_small by (rewrite pow_2_53; simpl; lia);
    try destruct (float_limit <=? Z.abs (round64 n)); simpl;
    try (split; [intros _; right; right; reflexivity | eauto]).
  all: split; [intros [e [=]] | intros [?|[[=]|[=]]]; lia].
Qed.

Lemma attach_csrf_Ok method hs0 sta hs stb :
  attach_csrf method hs0 sta = (Ok hs, stb) →
  if mutating method then
    if truthy (csrf_token (self sta)) then
      stb = sta ∧ hs = <["x-csrf-token" := HTok (csrf_token (self sta))]> hs0
    else
      ∃ t, _fetch_csrf sta = (Ok t, stb) ∧ hs = <["x-csrf-token" := HTok t]> hs0
  else stb = sta ∧ hs = hs0.
Proof.
  unfold attach_csrf. destruct (mutating method).
  - rewrite bind_get_self.
    destruct (truthy (csrf_token (self sta))).
    + unfold bind, ret. now intros [= <- <-].
    + rewrite bind_run. destruct (_fetch_csrf sta) as [[t|e] st2]; [| discriminate].
      unfold ret. intros [= <- <-]. now exists t.
  - unfold ret. now intros [= <- <-].
Qed.

Lemma first_attempt_Ok method endpoint payload st url hs r1 st1 :
  first_attempt method endpoint payload st = (Ok (url, hs, r1), st1) →
  url = build_url (base_url (self st)) endpoint ∧
  ∃ tok sta stb,
    _authenticate st = (Ok tok, sta) ∧
    attach_csrf method (base_headers tok) sta = (Ok hs, stb) ∧
    transport (main_request method url hs payload) (world stb) = (Ok r1, world st1) ∧
    self st1 = self stb ∧
    trace st1 =
      trace stb ++ [SessionRequest (main_request method url hs payload) (Ok r1)].
Proof.
  rewrite first_attempt_run. cbv zeta.
  destruct (_authenticate st) as [[tok|e] sta]; [| discriminate].
  destruct (attach_csrf _ _ sta) as [[hs'|e] stb] eqn:Hat; [| discriminate].
  destruct (transport _ (world stb)) as [[r|e] w'] eqn:Ht; [| discriminate].
  intros [= <- <- <- <-]. split; [reflexivity |].
  exists tok, sta, stb. repeat split; done.
Qed.

Lemma first_attempt_auxiliary method endpoint payload st url hs r1 st1 :
  first_attempt method endpoint payload st = (Ok (url, hs, r1), st1) →
  same_config (self st) (self st1) ∧
  main_requests (trace st1) =
    main_requests (trace st) ++ [main_request method url hs payload].
Proof.
  intros (_ & tok & sta & stb & Ha & Hat & _ & Hself & Htr)%first_attempt_Ok.
  apply authenticate_auxiliary in Ha as [Ha _].
  apply attach_csrf_auxiliary in Hat.
  pose proof (auxiliary_trans _ _ _ Ha Hat) as Hab.
  split; [rewrite Hself; apply Hab |].
  rewrite Htr, main_requests_app, (auxiliary_main _ _ Hab). reflexivity.
Qed.

(** The run of [_sync_request] when the first attempt is rejected for CSRF
    and the forced fetch succeeds. *)
Lemma sync_request_retry method endpoint payload st url hs r1 st1 t st2 :
  first_attempt method endpoint payload st = (Ok (url, hs, r1), st1) →
  csrf_rejected r1 = true →
  _fetch_csrf st1 = (Ok t, st2) →
  let q2 := main_request method url (<["x-csrf-token" := HTok t]> hs) payload in
  _sync_request method endpoint payload st =
    let '(o, w') := transport q2 (world st2) in
    (o, {| self := self st2; world := w';
           trace := trace st2 ++ [SessionRequest q2 o] |}).
Proof.
  intros H1 Hrej Hf. rewrite _sync_request_first_attempt, H1, Hrej.
  rewrite (bind_Ok _ _ _ _ _ Hf). reflexivity.
Qed.

(** The run of [_sync_request] when the forced fetch fails: the error of the
    fetch is the result and no second attempt is made. *)
Lemma sync_request_retry_fails method endpoint payload st url hs r1 st1 e st2 :
  first_attempt method endpoint payload st = (Ok (url, hs, r1), st1) →
  csrf_rejected r1 = true →
  _fetch_csrf st1 = (Raise e, st2) →
  _sync_request method endpoint payload st = (Raise e, st2) ∧
  main_requests (trace st2) =
    main_requests (trace st) ++ [main_request method url hs payload].
Proof.
  intros H1 Hrej Hf. rewrite _sync_request_first_attempt, H1, Hrej.
  rewrite (bind_Raise _ _ _ _ _ Hf). split; [reflexivity |].
  apply fetch_csrf_auxiliary, auxiliary_main in Hf. rewrite Hf.
  eapply first_attempt_auxiliary, H1.
Qed.

Lemma csrf_rejected_spec r : csrf_rejected r = true ↔ rejects_csrf r.
Proof.
  unfold csrf_rejected, rejects_csrf.
  now rewrite andb_true_iff, Z.eqb_eq, contains_spec.
Qed.

(** On a text of ASCII characters the test of line 76 looks for [CSRF] in
    some letter case. *)
Lemma rejects_csrf_ascii r :
  is_ascii (text r) = true →
  rejects_csrf r ↔
  status_code r = 403 ∧
  ∃ pre mid post, text r = pre +:+ mid +:+ post ∧ ascii_upper mid = "CSRF".
Proof.
  intros Hascii. unfold rejects_csrf.
  now rewrite (upper_ascii_text _ Hascii), <- contains_upper, contains_spec.
Qed.

Lemma base_headers_Authorization (tok : json) :
  base_headers tok !! "Authorization" = Some (HBearer tok).
Proof. unfold base_headers. now rewrite lookup_insert_eq. Qed.

Lemma base_headers_csrf (tok : json) : base_headers tok !! "x-csrf-token" = None.
Proof.
  unfold base_headers.
  rewrite !lookup_insert_ne by done. now rewrite lookup_singleton_ne.
Qed.

Lemma attach_csrf_Authorization method (tok : json) sta hs stb :
  attach_csrf method (base_headers tok) sta = (Ok hs, stb) →
  hs !! "Authorization" = Some (HBearer tok).
Proof.
  intros Hat%attach_csrf_Ok.
  destruct (mutating method); [destruct (truthy _) |].
  - destruct Hat as [_ ->]. rewrite lookup_insert_ne by done.
    apply base_headers_Authorization.
  - destruct Hat as (t & _ & ->). rewrite lookup_insert_ne by done.
    apply base_headers_Authorization.
  - destruct Hat as [_ ->]. apply base_headers_Authorization.
Qed.

(** The [session.request] calls of one run of [_sync_request]: none, the
    first attempt alone, or the first attempt and one retry. *)
Lemma sync_request_requests method endpoint payload st :
  let url := build_url (base_url (self st)) endpoint in
  let st' := (_sync_request method endpoint payload st).2 in
  main_requests (trace st') = main_requests (trace st)
  ∨ ∃ tok sta hs stb,
      _authenticate st = (Ok tok, sta) ∧
      attach_csrf method (base_headers tok) sta = (Ok hs, stb) ∧
      (main_requests (trace st') =
         main_requests (trace st) ++ [main_request method url hs payload]
       ∨ ∃ r1 st1 t st2,
           first_attempt method endpoint payload st = (Ok (url, hs, r1), st1) ∧
           csrf_rejected r1 = true ∧
           _fetch_csrf st1 = (Ok t, st2) ∧
           main_requests (trace st') =
             main_requests (trace st) ++
               [main_request method url hs payload;
                main_request method url (<["x-csrf-token" := HTok t]> hs)
                  payload]).
Proof.
  intros url st'. subst st'.
  rewrite _sync_request_first_attempt.
  destruct (first_attempt method endpoint payload st) as [[[[u hs] r1]|e] st1]
    eqn:H1.
  - pose proof H1 as (-> & tok & sta & stb & Ha & Hat & _)%first_attempt_Ok.
    pose proof (first_attempt_auxiliary _ _ _ _ _ _ _ _ H1) as [_ Hm].
    right. exists tok, sta, hs, stb. split; [done |]. split; [done |].
    destruct (csrf_rejected r1) eqn:Hrej; [| now left].
    rewrite bind_run.
    destruct (_fetch_csrf st1) as [[t|e] st2] eqn:Hf.
    + right. exists r1, st1, t, st2. repeat split; try done.
      pose proof Hf as Hx%fetch_csrf_auxiliary%auxiliary_main.
      unfold session_request, call.
      destruct (transport _ (world st2)) as [o w']. simpl.
      rewrite main_requests_app, Hx, Hm, <- List.app_assoc. reflexivity.
    + left. simpl.
      apply fetch_csrf_auxiliary, auxiliary_main in Hf. now rewrite Hf.
  - simpl. rewrite first_attempt_run in H1. cbv zeta in H1.
    destruct (_authenticate st) as [[tok|e'] sta] eqn:Ha.
    2: { injection H1 as _ <-. left.
         now apply authenticate_auxiliary in Ha as [Ha%auxiliary_main _]. }
    apply authenticate_auxiliary in Ha as [Ha _].
    destruct (attach_csrf _ _ sta) as [[hs|e'] stb] eqn:Hat.
    2: { injection H1 as _ <-. left.
         apply attach_csrf_auxiliary in Hat.
         eapply auxiliary_main, auxiliary_trans; eassumption. }
    pose proof Hat as Hx%attach_csrf_auxiliary.
    pose proof (auxiliary_main _ _ (auxiliary_trans _ _ _ Ha Hx)) as Hm.
    destruct (transport _ (world stb)) as [[r|e'] w']; [discriminate |].
    injection H1 as _ <-. right. exists tok, sta, hs, stb.
    split; [done |]. split; [done |]. left. simpl.
    now rewrite main_requests_app, Hm.
Qed.

Lemma build_url_spec (base endpoint : string) :
  build_url base endpoint = base +:+ "/" +:+ without_leading_slash endpoint.
Proof.
  unfold build_url. destruct (startswith endpoint "/") eqn:Hs.
  - apply startswith_slash in Hs as [rest ->]. reflexivity.
  - now rewrite startswith_slash_false.
Qed.

Lemma app_eq_self {A} (l l' : list A) : l = l ++ l' → l' = [].
Proof.
  intros Hl. rewrite <- (app_nil_r l) in Hl at 1.
  now apply app_inv_head in Hl.
Qed.

Lemma decode_body_spec r :
  (declares_json r →
   (∀ v, json_ r = Some v → decode_body r = v) ∧
   (json_ r = None → decode_body r = JStr (text r))) ∧
  (¬ declares_json r → decode_body r = JStr (text r)).
Proof.
  unfold decode_body, declares_json. cbv zeta.
  destruct (contains "application/json" _) eqn:Hc.
  - split; [| intros Hno; apply contains_spec in Hc; contradiction].
    intros _. split; [now intros v -> | now intros ->].
  - split; [| reflexivity].
    intros Hd%contains_spec. congruence.
Qed.

(** A mutating call of a client without CSRF token that gets as far as its
    first request has fetched a token before, and sends it. *)
Lemma sync_request_fetches_csrf method endpoint payload st q rest :
  mutating method = true →
  truthy (csrf_token (self st)) = false →
  main_requests (trace (_sync_request method endpoint payload st).2) =
    main_requests (trace st) ++ q :: rest →
  ∃ pre g rg post,
    trace (_sync_request method endpoint payload st).2 =
      trace st ++ pre ++ SessionGet g (Ok rg) :: post ∧
    main_requests pre = [] ∧
    rq_headers q !! "x-csrf-token" = Some (HTok (header_value rg "x-csrf-token")).
Proof.
  intros Hmut Hno Hq.
  destruct (sync_request_requests method endpoint payload st)
    as [Hm | (tok & sta & hs & stb & Ha & Hat & Hm)].
  { rewrite Hm in Hq. now apply app_eq_self in Hq. }
  assert (q = main_request method (build_url (base_url (self st)) endpoint)
                hs payload) as ->.
  { destruct Hm as [Hm | (r1 & st1 & t & st2 & _ & _ & _ & Hm)];
      rewrite Hm in Hq; apply app_inv_head in Hq; now injection Hq as <- _. }
  pose proof Ha as [[_ (ev1 & T1 & M1)] Hcsrf]%authenticate_auxiliary.
  pose proof Hat as Hat'%attach_csrf_Ok.
  rewrite Hmut, Hcsrf, Hno in Hat'. destruct Hat' as (t & Hf & ->).
  pose proof Hf as (tok2 & sta2 & rg & Ha2 & _ & _ & -> & _ & _ & T3)%fetch_csrf_Ok.
  apply authenticate_auxiliary in Ha2 as [[_ (ev2 & T2 & M2)] _].
  assert (∃ post, trace (_sync_request method endpoint payload st).2 =
                    trace stb ++ post) as [post Hpost].
  { rewrite _sync_request_first_attempt, first_attempt_run. cbv zeta.
    rewrite Ha, Hat.
    destruct (transport _ (world stb)) as [[r1|e] w']; [| now eexists].
    destruct (csrf_rejected r1); [| now eexists].
    match goal with |- context [bind ?m ?k ?s] =>
      destruct (bind m k s) as [o st'] eqn:Hb end.
    assert (Faithful (t <- _fetch_csrf ;;
                      session_request (upper method)
                        (build_url (base_url (self st)) endpoint)
                        (<["x-csrf-token" := HTok t]>
                           (<["x-csrf-token" :=
                                HTok (header_value rg "x-csrf-token")]>
                              (base_headers tok))) payload)) as HF.
    { apply Faithful_bind; [apply Faithful_fetch_csrf |].
      intros a. apply Faithful_call. reflexivity. }
    apply HF in Hb as (evs & Hevs & _). simpl in *.
    rewrite Hevs, <- List.app_assoc. now eexists. }
  exists (ev1 ++ ev2), (csrf_request (self sta2) tok2), rg, post.
  split; [| split].
  - rewrite Hpost, T3, T2, T1, <- !List.app_assoc. reflexivity.
  - now rewrite main_requests_app, M1, M2.
  - simpl. apply lookup_insert_eq.
Qed.

(** A response that [_sync_request] returns is the one of its last
    exchange, a [session.request]. *)
Lemma sync_request_Ok_last method endpoint payload st r st' :
  _sync_request method endpoint payload st = (Ok r, st') →
  ∃ q, last (trace st') = Some (SessionRequest q (Ok r)).
Proof.
  rewrite _sync_request_first_attempt.
  destruct (first_attempt method endpoint payload st) as [[[[u hs] r1]|e] st1]
    eqn:H1; [| discriminate].
  apply first_attempt_Ok in H1 as (_ & tok & sta & stb & _ & _ & _ & _ & Htr).
  destruct (csrf_rejected r1).
  - rewrite bind_run. destruct (_fetch_csrf st1) as [[t|e] st2]; [| discriminate].
    unfold session_request, call.
    destruct (transport _ (world st2)) as [o w']. intros [= -> <-]. simpl.
    eexists. apply last_snoc.
  - intros [= <- <-]. rewrite Htr. eexists. apply last_snoc.
Qed.

Lemma init_empty environ client :
  __init__ environ = Ok client →
  access_token client = JNull ∧ token_expiry client = 0 ∧
  csrf_token client = JNull.
Proof.
  unfold __init__. destruct (negb _); [discriminate |]. now intros [= <-].
Qed.

Lemma relay_trace environ req w client :
  __init__ environ = Ok client →
  (execute_sac_request environ req w).2 =
    trace (_sync_request (method req) (endpoint req) (JObj <$> payload req)
             (start client w)).2.
Proof.
  intros Hinit. unfold execute_sac_request. rewrite Hinit.
  now destruct (_sync_request _ _ _ (start client w)) as [[r|e] st'].
Qed.

(** Without a valid token the first exchange of a call is the token
    request. *)
Lemma sync_request_first_exchange method endpoint payload st :
  token_valid (self st) (timestamp (world st)) = false →
  ∃ o rest,
    trace (_sync_request method endpoint payload st).2 =
      trace st ++ SessionPost (token_request (self st)) o :: rest.
Proof.
  intros Hv.
  assert (∃ o, trace (_authenticate st).2 =
                 trace st ++ [SessionPost (token_request (self st)) o])
    as [o Ho].
  { rewrite (authenticate_fresh st Hv).
    destruct (transport _ (world st)) as [o w']. exists o.
    destruct o as [r|e]; [destruct (token_outcome _ r _) |]; reflexivity. }
  exists o. unfold _sync_request. rewrite bind_get_self. cbv zeta.
  rewrite bind_run.
  destruct (_authenticate st) as [[tok|e] sta]; simpl in Ho.
  - match goal with |- context [bind ?m ?k sta] =>
      destruct (bind m k sta) as [o2 st2] eqn:Hb;
      assert (Faithful (bind m k)) as HF
    end.
    { pose proof Faithful_fetch_csrf. unfold session_request. faithful_run. }
    apply HF in Hb as (evs & Hevs & _). simpl.
    rewrite Hevs, Ho, <- List.app_assoc. now exists evs.
  - simpl. rewrite Ho. now exists [].
Qed.


End Properties.

(** * The claims *)

Section Claims.
Context {W : Type} `{U : Upstream W}.
Local Open Scope client_scope.

Implicit Types (st : State W) (c : SACClient) (r : Response).

(** C2 (token caching).  A client that holds an access token (line 37: the
    field is not falsy) answers [authenticate()] before the expiry from its
    cache: the call returns that very token and leaves the client, the
    environment and the trace as they were, so no token request was made.  At
    or after the expiry, or without a token, the call makes one token request,
    the [POST] of the client-credentials form to the token endpoint. *)
Theorem authenticate_token_caching st :
  (truthy (access_token (self st)) = true →
   timestamp (world st) < token_expiry (self st) →
   _authenticate st = (Ok (access_token (self st)), st))
  ∧
  (truthy (access_token (self st)) = false ∨
   token_expiry (self st) ≤ timestamp (world st) →
   ∃ o w',
     transport (token_request (self st)) (world st) = (o, w') ∧
     world (_authenticate st).2 = w' ∧
     trace (_authenticate st).2 =
       trace st ++ [SessionPost (token_request (self st)) o]).
Proof.
  split.
  - intros Ht Hlt. apply authenticate_cached. unfold token_valid.
    rewrite Ht. simpl. now apply Z.ltb_lt.
  - intros Hno.
    assert (token_valid (self st) (timestamp (world st)) = false) as Hv.
    { unfold token_valid. destruct Hno as [-> | Hge]; [reflexivity |].
      apply andb_false_iff. right. now apply Z.ltb_ge. }
    rewrite (authenticate_fresh st Hv).
    destruct (transport _ (world st)) as [o w']. exists o, w'.
    split; [reflexivity |].
    destruct o as [r|e]; [destruct (token_outcome _ r _) |]; split; reflexivity.
Qed.


(** C5, as amended (failure of [authenticate()]).  When a token request is
    made and the endpoint answers, the call raises exactly when the status is
    one that [raise_for_status] rejects (400 to 599), or the body does not
    decode to an object with an [access_token] member, or the addition of
    line 47 raises on the [expires_in] member ([TypeError] for a member that
    is [null], a string, an array or an object, [OverflowError] for an
    integer too large for a [float]).  Otherwise it returns the token and has
    cached both the token and the expiry that line 47 computes from the
    lifetime [E] (3600 by default). *)
Theorem authenticate_failure st r w' :
  token_valid (self st) (timestamp (world st)) = false →
  transport (token_request (self st)) (world st) = (Ok r, w') →
  ((∃ e, (_authenticate st).1 = Raise e) ↔
   400 ≤ status_code r < 600 ∨ token_field r = None ∨ lifetime r = None)
  ∧
  (∀ tok st', _authenticate st = (Ok tok, st') →
   ∃ E, token_field r = Some tok ∧ lifetime r = Some E ∧
        access_token (self st') = tok ∧
        token_expiry (self st') =
          float_sub (float_add (timestamp w') E) 300).
Proof.
  intros Hv Ht. rewrite (authenticate_fresh st Hv), Ht.
  pose proof (token_outcome_fails (self st) r (timestamp w')) as Hf.
  pose proof (token_outcome_spec (self st) r (timestamp w')) as Hs.
  destruct (token_outcome (self st) r (timestamp w')) as [v c'] eqn:Ho.
  simpl in *. split; [exact Hf |].
  intros tok st' [= -> <-]. simpl.
  destruct ((400 <=? status_code r) && (status_code r <? 600)); [discriminate |].
  destruct (token_field r) as [tok'|], (lifetime r) as [E|];
    try (exfalso; apply proj2 in Hf;
         destruct Hf as [e [=]]; auto; fail).
  injection Hs as -> ->. exists E. repeat split; reflexivity.
Qed.

(** C1, as amended (CSRF retry-once).  Let the first attempt of a call (of
    any method, the mutating ones among them) come back with the response
    [r1].  If [r1] is a 403 whose text contains [CSRF] in some letter case
    (the test is made on the upper-cased text), the client runs the CSRF
    fetch whatever token it has cached.  When that fetch gives [t], it issues
    the request once more with [t] and returns what this second attempt
    gives, response of any status or exception, as it is: the call has made
    exactly the two requests [q1] and [q2].  When that fetch raises, the call
    raises the same exception and has made the one request [q1].  In every
    other case the call returns [r1] and has made the one request [q1]. *)
Theorem csrf_retry_once method endpoint payload st url hs r1 st1 :
  first_attempt method endpoint payload st = (Ok (url, hs, r1), st1) →
  let q1 := main_request method url hs payload in
  (rejects_csrf r1 →
   ∀ t st2, _fetch_csrf st1 = (Ok t, st2) →
     let q2 :=
       main_request method url (<["x-csrf-token" := HTok t]> hs) payload in
     ∃ o2 st3 g rg,
       _sync_request method endpoint payload st = (o2, st3) ∧
       transport q2 (world st2) = (o2, world st3) ∧
       trace st3 = trace st2 ++ [SessionRequest q2 o2] ∧
       last (trace st2) = Some (SessionGet g (Ok rg)) ∧
       rq_url g = base_url (self st) +:+ "/api/v1/csrf" ∧
       t = header_value rg "x-csrf-token" ∧
       main_requests (trace st3) = main_requests (trace st) ++ [q1; q2])
  ∧
  (rejects_csrf r1 →
   ∀ e st2, _fetch_csrf st1 = (Raise e, st2) →
     _sync_request method endpoint payload st = (Raise e, st2) ∧
     main_requests (trace st2) = main_requests (trace st) ++ [q1])
  ∧
  (¬ rejects_csrf r1 →
   _sync_request method endpoint payload st = (Ok r1, st1) ∧
   main_requests (trace st1) = main_requests (trace st) ++ [q1]).
Proof.
  intros H1 q1.
  pose proof (first_attempt_auxiliary _ _ _ _ _ _ _ _ H1) as [[Hbase _] Hm].
  split; [| split].
  - intros Hrej%csrf_rejected_spec t st2 Hf q2.
    pose proof (sync_request_retry _ _ _ _ _ _ _ _ _ _ H1 Hrej Hf) as Hrun.
    cbv zeta in Hrun. fold q2 in Hrun.
    pose proof Hf as (tok & sta & rg & Ha & _ & _ & Ht & _ & _ & Htr)%fetch_csrf_Ok.
    apply authenticate_auxiliary in Ha as [[[Hbase' _] _] _].
    destruct (transport q2 (world st2)) as [o2 w'] eqn:Hq.
    eexists o2, _, _, rg. split; [exact Hrun |]. simpl.
    repeat split; try done.
    + rewrite Htr. apply last_snoc.
    + simpl. now rewrite Hbase', Hbase.
    + rewrite main_requests_app.
      apply fetch_csrf_auxiliary, auxiliary_main in Hf.
      rewrite Hf, Hm, <- List.app_assoc. reflexivity.
  - intros Hrej%csrf_rejected_spec e st2 Hf.
    exact (sync_request_retry_fails _ _ _ _ _ _ _ _ _ _ H1 Hrej Hf).
  - intros Hno. rewrite _sync_request_first_attempt, H1.
    destruct (csrf_rejected r1) eqn:Hrej; [| done].
    now apply csrf_rejected_spec in Hrej.
Qed.

(** C10 (what the retry changes).  When the retry fires, the second request
    is the first one with its [x-csrf-token] header set to the token just
    fetched: same method, URL, payload and form, and every other header as
    before.  Its [Authorization] header is the bearer value of the token that
    [authenticate()] returned on entry, whatever access token the client
    holds after the forced fetch. *)
Theorem retry_changes_only_csrf_header method endpoint payload st url hs r1 st1
    t st2 :
  first_attempt method endpoint payload st = (Ok (url, hs, r1), st1) →
  rejects_csrf r1 →
  _fetch_csrf st1 = (Ok t, st2) →
  ∃ tok sta q1 q2,
    _authenticate st = (Ok tok, sta) ∧
    main_requests (trace (_sync_request method endpoint payload st).2) =
      main_requests (trace st) ++ [q1; q2] ∧
    rq_method q2 = rq_method q1 ∧ rq_url q2 = rq_url q1 ∧
    rq_json q2 = rq_json q1 ∧ rq_data q2 = rq_data q1 ∧
    rq_headers q2 = <["x-csrf-token" := HTok t]> (rq_headers q1) ∧
    (∀ k, k ≠ "x-csrf-token" → rq_headers q2 !! k = rq_headers q1 !! k) ∧
    rq_headers q1 !! "Authorization" = Some (HBearer tok) ∧
    rq_headers q2 !! "Authorization" = Some (HBearer tok).
Proof.
  intros H1 Hrej%csrf_rejected_spec Hf.
  pose proof H1 as (_ & tok & sta & stb & Ha & Hat & _)%first_attempt_Ok.
  pose proof (first_attempt_auxiliary _ _ _ _ _ _ _ _ H1) as [_ Hm].
  apply attach_csrf_Authorization in Hat.
  exists tok, sta, (main_request method url hs payload),
    (main_request method url (<["x-csrf-token" := HTok t]> hs) payload).
  split; [done |]. split.
  - rewrite (sync_request_retry _ _ _ _ _ _ _ _ _ _ H1 Hrej Hf).
    destruct (transport _ (world st2)) as [o2 w']. simpl.
    rewrite main_requests_app.
    apply fetch_csrf_auxiliary, auxiliary_main in Hf.
    rewrite Hf, Hm, <- List.app_assoc. reflexivity.
  - simpl. repeat split; try done.
    + intros k Hk. now rewrite lookup_insert_ne.
    + now rewrite lookup_insert_ne.
Qed.

(** C4, as amended (the request URL).  The URL of every request of a call is
    the base URL, one slash, and the endpoint without its first leading
    slash: [version] and [/version] both give [{base_url}/version] and the
    slash is never missing.  Slashes after the first are kept: what follows
    that slash begins with another one exactly when the endpoint begins with
    two.  The base URL of a client built by [__init__] does not end in a
    slash. *)
Theorem request_url method endpoint payload st :
  let base := base_url (self st) in
  let url := base +:+ "/" +:+ without_leading_slash endpoint in
  build_url base endpoint = url ∧
  (∃ qs,
     main_requests (trace (_sync_request method endpoint payload st).2) =
       main_requests (trace st) ++ qs ∧
     Forall (λ q, rq_url q = url) qs) ∧
  build_url base "version" = base +:+ "/version" ∧
  build_url base "/version" = base +:+ "/version" ∧
  startswith (without_leading_slash endpoint) "/" = startswith endpoint "//" ∧
  (∀ environ c, __init__ environ = Ok c → ∀ t, base_url c ≠ t +:+ "/").
Proof.
  intros base url. split; [apply build_url_spec |]. split; [| split; [| split; [| split]]].
  - destruct (sync_request_requests method endpoint payload st)
      as [Hm | (tok & sta & hs & stb & _ & _ & [Hm | (r1 & st1 & t & st2 & _ & _ & _ & Hm)])].
    + exists []. now rewrite app_nil_r.
    + eexists. split; [exact Hm |].
      repeat constructor. simpl. apply build_url_spec.
    + eexists. split; [exact Hm |].
      repeat constructor; simpl; apply build_url_spec.
  - reflexivity.
  - reflexivity.
  - destruct endpoint as [|c e]; [reflexivity |].
    unfold without_leading_slash, startswith.
    destruct (Ascii.eqb c slash) eqn:Hc.
    + apply Ascii.eqb_eq in Hc as ->.
      change "//" with (String slash "/"). rewrite prefix_cons.
      now rewrite bool_decide_eq_true_2.
    + apply Ascii.eqb_neq in Hc.
      change "//" with (String slash "/"). change "/" with (String slash "").
      rewrite !prefix_cons.
      now rewrite bool_decide_eq_false_2 by congruence.
  - intros environ c Hinit t. unfold __init__ in Hinit.
    destruct (negb _); [discriminate |]. injection Hinit as <-. simpl.
    apply rstrip_no_trailing.
Qed.

(** C6, as amended (headers of the requests).  Let [q] be the first request
    of a call and [rest] the ones after it.  All of them are given
    [Authorization: Bearer tok] for the token [tok] that [authenticate()]
    returned on entry.  If the upper-cased method is POST, PUT, DELETE or
    PATCH, the headers of [q] have as [x-csrf-token] the cached CSRF token
    when the client holds one, and otherwise what a fetch made at that point
    returns ([None] when the answer of the handshake has no such header); for
    any other method the headers of [q] have no [x-csrf-token].  There is a
    request after [q] only when [q] was rejected for CSRF and the forced
    fetch returned: it is the one re-issued request, and whatever the method
    its headers have as [x-csrf-token] what that fetch returned. *)
Theorem first_attempt_headers method endpoint payload st q rest :
  main_requests (trace (_sync_request method endpoint payload st).2) =
    main_requests (trace st) ++ q :: rest →
  ∃ tok sta,
    _authenticate st = (Ok tok, sta) ∧
    Forall (λ q', rq_headers q' !! "Authorization" = Some (HBearer tok))
      (q :: rest) ∧
    (if mutating method then
       if truthy (csrf_token (self st)) then
         rq_headers q !! "x-csrf-token" = Some (HTok (csrf_token (self st)))
       else
         ∃ t stb, _fetch_csrf sta = (Ok t, stb) ∧
           rq_headers q !! "x-csrf-token" = Some (HTok t)
     else rq_headers q !! "x-csrf-token" = None) ∧
    (rest = [] ∨
     ∃ url hs r1 st1 t st2 q2,
       first_attempt method endpoint payload st = (Ok (url, hs, r1), st1) ∧
       rejects_csrf r1 ∧
       _fetch_csrf st1 = (Ok t, st2) ∧
       rest = [q2] ∧
       rq_headers q2 = <["x-csrf-token" := HTok t]> (rq_headers q) ∧
       rq_headers q2 !! "x-csrf-token" = Some (HTok t)).
Proof.
  intros Hq.
  destruct (sync_request_requests method endpoint payload st)
    as [Hm | (tok & sta & hs & stb & Ha & Hat & Hm)].
  { rewrite Hm in Hq. now apply app_eq_self in Hq. }
  pose proof (attach_csrf_Authorization _ _ _ _ _ Hat) as Hauth.
  pose proof Ha as [_ Hcsrf]%authenticate_auxiliary.
  set (url := build_url (base_url (self st)) endpoint) in *.
  assert (q = main_request method url hs payload ∧
          Forall (λ q', rq_headers q' !! "Authorization" = Some (HBearer tok))
            rest ∧
          (rest = [] ∨
           ∃ url hs r1 st1 t st2 q2,
             first_attempt method endpoint payload st =
               (Ok (url, hs, r1), st1) ∧
             rejects_csrf r1 ∧
             _fetch_csrf st1 = (Ok t, st2) ∧
             rest = [q2] ∧
             rq_headers q2 = <["x-csrf-token" := HTok t]> (rq_headers q) ∧
             rq_headers q2 !! "x-csrf-token" = Some (HTok t)))
    as (Hq1 & Hrest & Hretry).
  { destruct Hm as [Hm | (r1 & st1 & t & st2 & H1 & Hrej & Hf & Hm)];
      rewrite Hm in Hq; apply app_inv_head in Hq; injection Hq as <- <-.
    - split; [reflexivity |]. split; [constructor | now left].
    - split; [reflexivity |]. split.
      + repeat constructor. simpl. now rewrite lookup_insert_ne.
      + right. apply csrf_rejected_spec in Hrej.
        eexists url, hs, r1, st1, t, st2, _.
        split; [exact H1 |]. split; [exact Hrej |]. split; [exact Hf |].
        split; [reflexivity |]. split; [reflexivity |].
        simpl. apply lookup_insert_eq. }
  subst q.
  exists tok, sta. split; [done |]. split; [now constructor |].
  split; [| exact Hretry].
  apply attach_csrf_Ok in Hat. rewrite Hcsrf in Hat. simpl.
  destruct (mutating method); [destruct (truthy (csrf_token (self st))) |].
  - destruct Hat as [_ ->]. apply lookup_insert_eq.
  - destruct Hat as (t & Hf & ->). exists t, stb. split; [done |].
    apply lookup_insert_eq.
  - destruct Hat as [_ ->]. apply base_headers_csrf.
Qed.

(** C7 (content-type-based body decoding).  When the session client returns
    the response [r], the route answers an envelope with the status of [r].
    If the [Content-Type] of [r] declares [application/json], the body of the
    envelope is the value [r] parses to, and the raw text when it does not
    parse; with any other [Content-Type] the body is the raw text, whether or
    not the text parses. *)
Theorem body_decoding environ req w client r st' :
  __init__ environ = Ok client →
  _sync_request (method req) (endpoint req) (JObj <$> payload req)
    (start client w) = (Ok r, st') →
  ∃ body hs,
    execute_sac_request environ req w =
      (Envelope (status_code r) body hs, world st', trace st') ∧
    (declares_json r →
     (∀ v, json_ r = Some v → body = v) ∧
     (json_ r = None → body = JStr (text r))) ∧
    (¬ declares_json r → body = JStr (text r)).
Proof.
  intros Hinit Hrun. unfold execute_sac_request. rewrite Hinit, Hrun.
  exists (decode_body r), (dict_of_headers r). split; [reflexivity |].
  apply decode_body_spec.
Qed.


(** C9 (a fresh client per relay call).  A relay call builds its own client
    from the process environment; when that fails the route answers the error
    without any upstream call.  Otherwise the client starts with no access
    token, expiry 0 and no CSRF token, so nothing is carried over from
    another call: the first exchange of the call is the token request, and if
    its method is mutating and it gets as far as its first request, it has
    fetched in this same call the CSRF token that the request carries. *)
Theorem fresh_client_per_call environ req w :
  match __init__ environ with
  | Raise e => execute_sac_request environ req w = (handle e, w, [])
  | Ok client =>
      access_token client = JNull ∧ token_expiry client = 0 ∧
      csrf_token client = JNull ∧
      let tr := (execute_sac_request environ req w).2 in
      (∃ o rest, tr = SessionPost (token_request client) o :: rest) ∧
      (mutating (method req) = true →
       ∀ q rest, main_requests tr = q :: rest →
         ∃ pre g rg post,
           tr = pre ++ SessionGet g (Ok rg) :: post ∧
           main_requests pre = [] ∧
           rq_headers q !! "x-csrf-token" =
             Some (HTok (header_value rg "x-csrf-token")))
  end.
Proof.
  destruct (__init__ environ) as [client|e] eqn:Hinit.
  2: { unfold execute_sac_request. now rewrite Hinit. }
  apply init_empty in Hinit as Hempty. destruct Hempty as (Hat & Hexp & Hcsrf).
  rewrite (relay_trace _ req w _ Hinit). cbv zeta.
  repeat split; try done.
  - apply (sync_request_first_exchange _ _ _ (start client w)).
    unfold token_valid. simpl. now rewrite Hat.
  - intros Hmut q rest Hq.
    apply (sync_request_fetches_csrf _ _ _ (start client w) q rest Hmut).
    + simpl. now rewrite Hcsrf.
    + exact Hq.
Qed.

End Claims.

(** * The claims on scripted upstreams *)

Import Scripted.

(** C2 on a script: a token held until 2000 is served from the cache at 1000
    and asked for again at 2000. *)
Lemma authenticate_token_caching_witness :
  _authenticate st_cached = (Ok (JStr "A"), st_cached) ∧
  ∃ o w',
    transport (token_request (self st_expired)) (world st_expired) = (o, w') ∧
    world (_authenticate st_expired).2 = w' ∧
    trace (_authenticate st_expired).2 =
      [SessionPost (token_request (self st_expired)) o].
Proof.
  split.
  - apply (proj1 (authenticate_token_caching st_cached)); [reflexivity |].
    apply Z.ltb_lt. vm_compute. reflexivity.
  - apply (proj2 (authenticate_token_caching st_expired)). right.
    apply Z.leb_le. vm_compute. reflexivity.
Defined.



(** C5 as first stated fails: a 300 from the token endpoint is not a 2xx
    status, and the call returns its token. *)
Lemma authenticate_accepts_300 :
  transport (token_request (self st_300)) (world st_300) =
    (Ok (response 300 "" (Some (JObj token_only)) []),
     {| clock := 1001; script := [] |}) ∧
  ¬ (200 ≤ status_code (response 300 "" (Some (JObj token_only)) []) < 300) ∧
  (_authenticate st_300).1 = Ok (JStr "A").
Proof.
  split; [reflexivity |]. split; [simpl; lia | vm_compute; reflexivity].
Qed.

(** C5 as amended, on scripts: a 500 makes the call raise, a 300 with a token
    is accepted and cached with the default lifetime. *)
Lemma authenticate_failure_witness :
  (∃ e, (_authenticate st_500).1 = Raise e) ∧
  ∃ st', _authenticate st_300 = (Ok (JStr "A"), st') ∧
         token_expiry (self st') = 1001 + 3600 - 300.
Proof.
  split.
  - destruct (authenticate_failure st_500 (response 500 "down" None [])
                {| clock := 1001; script := [] |}) as [Hfail _];
      [reflexivity .. |].
    apply Hfail. left. simpl. lia.
  - destruct (authenticate_failure st_300
                (response 300 "" (Some (JObj token_only)) [])
                {| clock := 1001; script := [] |}) as [_ Hok];
      [reflexivity .. |].
    exists (_authenticate st_300).2. split; [vm_compute; reflexivity |].
    destruct (Hok (JStr "A") (_authenticate st_300).2) as (E & _ & HE & _ & Hexp);
      [vm_compute; reflexivity |].
    vm_compute in HE. injection HE as <-. rewrite Hexp.
    vm_compute. reflexivity.
Defined.

(** C1 as first stated fails: the forced fetch of the CSRF token is answered
    500; the call raises, and the rejected request has not been issued
    again. *)
Lemma rejected_request_not_retried :
  first_attempt "POST" "/models" None st_fetch_fails =
    (Ok (models_url, with_csrf "A" "c1",
         response 403 "Invalid CSRF token" None []),
     after_first "POST" st_fetch_fails) ∧
  rejects_csrf (response 403 "Invalid CSRF token" None []) ∧
  (_sync_request "POST" "/models" None st_fetch_fails).1 =
    Raise (HTTPError 500) ∧
  main_requests (trace (_sync_request "POST" "/models" None st_fetch_fails).2) =
    [main_request "POST" models_url (with_csrf "A" "c1") None].
Proof.
  split; [vm_compute; reflexivity |]. split.
  - split; [reflexivity |]. now exists "INVALID ", " TOKEN".
  - split; vm_compute; reflexivity.
Qed.

(** C1 as amended, on scripts: when the rejection persists, the client makes
    two requests, the second with the token just fetched, and returns the
    second 403; when the second request times out, the call raises the
    timeout after the same two requests. *)
Lemma csrf_retry_once_witness :
  (∃ r2 st3,
     _sync_request "POST" "/models" None st_rejected_twice = (Ok r2, st3) ∧
     rejects_csrf r2 ∧
     main_requests (trace st3) =
       [main_request "POST" models_url (with_csrf "A" "c1") None;
        main_request "POST" models_url (with_csrf "A" "c2") None]) ∧
  (∃ st3,
     _sync_request "POST" "/models" None st_retry_timeout =
       (Raise ReadTimeout, st3) ∧
     main_requests (trace st3) =
       [main_request "POST" models_url (with_csrf "A" "c1") None;
        main_request "POST" models_url (with_csrf "A" "c2") None]).
Proof.
  assert (rejects_csrf (response 403 "Invalid CSRF token" None [])) as Hrej
    by (split; [reflexivity | now exists "INVALID ", " TOKEN"]).
  split.
  - destruct (csrf_retry_once "POST" "/models" None st_rejected_twice
                models_url (with_csrf "A" "c1")
                (response 403 "Invalid CSRF token" None [])
                (after_first "POST" st_rejected_twice))
      as (Hretry & _ & _); [vm_compute; reflexivity |].
    destruct (Hretry Hrej (JStr "c2") (after_fetch "POST" st_rejected_twice))
      as (o2 & st3 & g & rg & Hrun & Hq2 & _ & _ & _ & _ & Hm);
      [vm_compute; reflexivity |].
    vm_compute in Hq2. injection Hq2 as <- _.
    eexists _, st3. split; [exact Hrun |]. split.
    + split; [reflexivity |]. now exists "", " TOKEN STILL INVALID".
    + rewrite Hm. vm_compute. reflexivity.
  - destruct (csrf_retry_once "POST" "/models" None st_retry_timeout
                models_url (with_csrf "A" "c1")
                (response 403 "Invalid CSRF token" None [])
                (after_first "POST" st_retry_timeout))
      as (Hretry & _ & _); [vm_compute; reflexivity |].
    destruct (Hretry Hrej (JStr "c2") (after_fetch "POST" st_retry_timeout))
      as (o2 & st3 & g & rg & Hrun & Hq2 & _ & _ & _ & _ & Hm);
      [vm_compute; reflexivity |].
    vm_compute in Hq2. injection Hq2 as <- _.
    exists st3. split; [exact Hrun |].
    rewrite Hm. vm_compute. reflexivity.
Defined.

(** C10 on a script: the access token expires before the forced fetch, which
    gets [B]; the retry still carries the bearer value of [A]. *)
Lemma retry_changes_only_csrf_header_witness :
  ∃ q1 q2,
    main_requests (trace (_sync_request "PUT" "/models" None st_refresh).2) =
      [q1; q2] ∧
    rq_headers q2 = <["x-csrf-token" := HTok (JStr "c2")]> (rq_headers q1) ∧
    rq_headers q2 !! "Authorization" = Some (HBearer (JStr "A")) ∧
    access_token (self (_sync_request "PUT" "/models" None st_refresh).2) =
      JStr "B".
Proof.
  destruct (retry_changes_only_csrf_header "PUT" "/models" None st_refresh
              models_url (with_csrf "A" "c1")
              (response 403 "Invalid CSRF token" None [])
              (after_first "PUT" st_refresh)
              (JStr "c2") (after_fetch "PUT" st_refresh))
    as (tok & sta & q1 & q2 & Ha & Hm & _ & _ & _ & _ & Hhs & _ & _ & Hauth).
  - vm_compute. reflexivity.
  - split; [reflexivity |]. now exists "INVALID ", " TOKEN".
  - vm_compute. reflexivity.
  - vm_compute in Ha. injection Ha as <- _. exists q1, q2.
    split; [exact Hm |]. split; [exact Hhs |]. split; [exact Hauth |].
    vm_compute. reflexivity.
Defined.

(** C4 as first stated fails: the endpoint [//version] gives
    [{base_url}//version]. *)
Lemma double_slash_endpoint :
  ∃ q,
    main_requests (trace (_sync_request "GET" "//version" None st_get).2) = [q] ∧
    rq_url q = base_url (self st_get) +:+ "//version".
Proof.
  exists (main_request "GET" "https://sac.example//version"
            (base_headers (JStr "A")) None).
  split; vm_compute; reflexivity.
Qed.

(** C4 as amended, on a script: [version] and [/version] give the same
    request, to [https://sac.example/version]. *)
Lemma request_url_witness :
  let q := main_request "GET" "https://sac.example/version"
             (base_headers (JStr "A")) None in
  main_requests (trace (_sync_request "GET" "version" None st_get).2) = [q] ∧
  main_requests (trace (_sync_request "GET" "/version" None st_get).2) = [q] ∧
  rq_url q = base_url (self st_get) +:+ "/" +:+ "version".
Proof.
  intros q.
  destruct (request_url "GET" "version" None st_get)
    as (_ & (qs & Hqs & Hall) & _).
  assert (main_requests (trace (_sync_request "GET" "version" None st_get).2)
          = [q]) as Hq by (vm_compute; reflexivity).
  split; [exact Hq |]. split; [vm_compute; reflexivity |].
  rewrite Hq in Hqs. change (main_requests (trace st_get)) with (@nil Request) in Hqs.
  rewrite app_nil_l in Hqs. rewrite <- Hqs in Hall.
  apply Forall_cons in Hall as [Hurl _]. exact Hurl.
Defined.

(** C6 as first stated fails: a GET that is rejected for CSRF is issued again
    with an [x-csrf-token] header. *)
Lemma get_retry_attaches_csrf :
  mutating "GET" = false ∧
  ∃ q1 q2,
    main_requests
      (trace (_sync_request "GET" "/models" None st_get_rejected).2) = [q1; q2] ∧
    rq_headers q1 !! "x-csrf-token" = None ∧
    rq_headers q2 !! "x-csrf-token" = Some (HTok (JStr "c2")).
Proof.
  split; [vm_compute; reflexivity |].
  exists (main_request "GET" models_url (base_headers (JStr "A")) None),
    (main_request "GET" models_url (with_csrf "A" "c2") None).
  repeat split; vm_compute; reflexivity.
Qed.

(** C6 as amended, on scripts: a [post] of a client without CSRF token
    carries the bearer token and the CSRF token fetched for it, and is the
    only request; a GET that is rejected for CSRF goes without
    [x-csrf-token], and the request issued again has the token of the forced
    fetch. *)
Lemma first_attempt_headers_witness :
  (let q := main_request "post" models_url (with_csrf "A" "c1") None in
   main_requests (trace (_sync_request "post" "/models" None st_post).2) = [q] ∧
   rq_headers q !! "Authorization" = Some (HBearer (JStr "A")) ∧
   ∃ t, rq_headers q !! "x-csrf-token" = Some (HTok t)) ∧
  (let q := main_request "GET" models_url (base_headers (JStr "A")) None in
   let q2 := main_request "GET" models_url (with_csrf "A" "c2") None in
   main_requests (trace (_sync_request "GET" "/models" None st_get_rejected).2) =
     [q; q2] ∧
   rq_headers q !! "x-csrf-token" = None ∧
   ∃ t st1 st2,
     _fetch_csrf st1 = (Ok t, st2) ∧
     rq_headers q2 !! "x-csrf-token" = Some (HTok t)).
Proof.
  split.
  - intros q.
    assert (main_requests (trace (_sync_request "post" "/models" None st_post).2)
            = [q]) as Hq by (vm_compute; reflexivity).
    destruct (first_attempt_headers "post" "/models" None st_post q [])
      as (tok & sta & Ha & Hauth & Hcsrf & _); [exact Hq |].
    split; [exact Hq |].
    vm_compute in Ha. injection Ha as <- _.
    apply Forall_cons in Hauth as [Hauth _]. split; [exact Hauth |].
    assert (mutating "post" = true) as Hm by (vm_compute; reflexivity).
    rewrite Hm in Hcsrf.
    change (truthy (csrf_token (self st_post))) with false in Hcsrf.
    destruct Hcsrf as (t & stb & _ & Hcsrf). now exists t.
  - intros q q2.
    assert (main_requests
              (trace (_sync_request "GET" "/models" None st_get_rejected).2)
            = [q; q2]) as Hq by (vm_compute; reflexivity).
    destruct (first_attempt_headers "GET" "/models" None st_get_rejected q [q2])
      as (tok & sta & _ & _ & Hcsrf & Hrest); [exact Hq |].
    split; [exact Hq |].
    assert (mutating "GET" = false) as Hm by (vm_compute; reflexivity).
    rewrite Hm in Hcsrf. split; [exact Hcsrf |].
    destruct Hrest as [[=] | (url & hs & r1 & st1 & t & st2 & q2' & _ & _ & Hf
                               & [= <-] & _ & Ht)].
    now exists t, st1, st2.
Defined.

(** C7 on scripts: a JSON 404 is answered with its parsed body, a
    [text/plain] body [1] with the string. *)
Lemma body_decoding_witness :
  (∃ hs,
     (execute_sac_request environ (request "GET" "/missing") upstream_json).1.1 =
       Envelope 404 (JObj []) hs) ∧
  (∃ hs,
     (execute_sac_request environ (request "GET" "/one") upstream_text).1.1 =
       Envelope 200 (JStr "1") hs).
Proof.
  split.
  - destruct (body_decoding environ (request "GET" "/missing") upstream_json
                (client JNull 0 JNull)
                (response 404 "{}" (Some (JObj [])) json_headers)
                (_sync_request "GET" "/missing" None
                   (start (client JNull 0 JNull) upstream_json)).2)
      as (body & hs & Hrun & Hjson & _);
      [vm_compute; reflexivity | vm_compute; reflexivity |].
    exists hs. rewrite Hrun. simpl. f_equal.
    apply Hjson; [| reflexivity].
    apply contains_spec. vm_compute. reflexivity.
  - destruct (body_decoding environ (request "GET" "/one") upstream_text
                (client JNull 0 JNull)
                (response 200 "1" (Some (JNum 1)) text_headers)
                (_sync_request "GET" "/one" None
                   (start (client JNull 0 JNull) upstream_text)).2)
      as (body & hs & Hrun & _ & Hraw);
      [vm_compute; reflexivity | vm_compute; reflexivity |].
    exists hs. rewrite Hrun. simpl. f_equal.
    apply Hraw. intros Hct%contains_spec. vm_compute in Hct. discriminate.
Defined.



(** C9 on a script: two relay calls in a row each start with the token
    request and each fetch their own CSRF token. *)
Lemma fresh_client_per_call_witness :
  let first :=
    execute_sac_request environ (request "POST" "/models") upstream_post in
  let second :=
    execute_sac_request environ (request "POST" "/models") first.1.2 in
  (∃ o rest,
     first.2 = SessionPost (token_request (client JNull 0 JNull)) o :: rest) ∧
  (∃ o rest,
     second.2 = SessionPost (token_request (client JNull 0 JNull)) o :: rest) ∧
  main_requests first.2 = [main_request "POST" models_url (with_csrf "A" "c1") None] ∧
  main_requests second.2 =
    [main_request "POST" models_url (with_csrf "B" "c2") None].
Proof.
  intros first second.
  pose proof (fresh_client_per_call environ (request "POST" "/models")
                upstream_post) as H1.
  pose proof (fresh_client_per_call environ (request "POST" "/models")
                first.1.2) as H2.
  change (__init__ environ) with (Ok (client JNull 0 JNull)) in H1, H2.
  destruct H1 as (_ & _ & _ & H1 & _). destruct H2 as (_ & _ & _ & H2 & _).
  split; [exact H1 |]. split; [exact H2 |]. split; vm_compute; reflexivity.
Defined.

(** * Further properties of the client and of the routes *)

(** ** [SACClient.__init__] *)

Lemma rstrip_spec (ch : ascii) (s : string) :
  ∃ n, s = rstrip ch s +:+ repeat_char ch n.
Proof.
  induction s as [|c s [n IH]].
  - now exists O.
  - simpl.
    destruct (Ascii.eqb c ch && String.eqb (rstrip ch s) EmptyString) eqn:Hc.
    + apply andb_true_iff in Hc as [->%Ascii.eqb_eq Hs%String.eqb_eq].
      rewrite Hs, append_nil in IH. exists (S n). rewrite append_nil.
      simpl. now rewrite <- IH.
    + exists n. rewrite append_cons. now rewrite <- IH.
Qed.

Lemma rstrip_repeat_char (ch : ascii) (n : nat) :
  rstrip ch (repeat_char ch n) = EmptyString.
Proof.
  induction n as [|n IH]; [reflexivity |].
  simpl. now rewrite IH, Ascii.eqb_refl.
Qed.

Lemma rstrip_empty_iff (ch : ascii) (s : string) :
  rstrip ch s = EmptyString ↔ ∃ n, s = repeat_char ch n.
Proof.
  split.
  - intros Hs. destruct (rstrip_spec ch s) as [n Hn].
    rewrite Hs, append_nil in Hn. now exists n.
  - intros [n ->]. apply rstrip_repeat_char.
Qed.

Lemma nonempty_true (s : string) : nonempty s = true ↔ s ≠ EmptyString.
Proof.
  unfold nonempty. rewrite negb_true_iff. split.
  - intros Hs ->. now rewrite String.eqb_refl in Hs.
  - intros Hs. now apply String.eqb_neq.
Qed.

(** X1.  [SACClient()] is built exactly when the token URL, the client id
    and the client secret are set and not empty and the base URL has a
    character that is not a slash (an unset variable reads as the empty
    string); otherwise it raises [ValueError("Missing SAC credentials")],
    and nothing else. *)
Theorem init_requires_credentials (environ : gmap string string) :
  ((∃ c, __init__ environ = Ok c) ↔
   (¬ ∃ n, getenv environ "SAC_BASE_URL" = repeat_char slash n) ∧
   getenv environ "SAC_TOKEN_URL" ≠ EmptyString ∧
   getenv environ "SAC_CLIENT_ID" ≠ EmptyString ∧
   getenv environ "SAC_CLIENT_SECRET" ≠ EmptyString) ∧
  (∀ e, __init__ environ = Raise e → e = ValueError "Missing SAC credentials").
Proof.
  unfold __init__. cbv zeta.
  rewrite <- rstrip_empty_iff, <- !nonempty_true.
  destruct (forallb nonempty _) eqn:Hall; simpl.
  - split; [| discriminate]. split; [| eauto].
    intros _. simpl in Hall.
    repeat (apply andb_true_iff in Hall as [? Hall]).
    repeat split; done.
  - split; [| now intros e [= <-]]. split; [intros [c [=]] |].
    intros (Hb & Ht & Hi & Hs). simpl in Hall.
    now rewrite Hb, Ht, Hi, Hs in Hall.
Qed.

(** X1 on environments: a base URL of slashes only and a missing client
    secret are refused; the complete environment is accepted. *)
Lemma init_requires_credentials_witness :
  __init__ environ_only_slashes = Raise (ValueError "Missing SAC credentials") ∧
  __init__ environ_no_secret = Raise (ValueError "Missing SAC credentials") ∧
  ∃ c, __init__ environ = Ok c.
Proof.
  split; [| split].
  - destruct (__init__ environ_only_slashes) as [c|e] eqn:Hi.
    + destruct (proj1 (proj1 (init_requires_credentials environ_only_slashes))
                  (ex_intro _ c Hi)) as [Hb _].
      exfalso. apply Hb. now exists 2%nat.
    + now rewrite (proj2 (init_requires_credentials environ_only_slashes) e Hi).
  - vm_compute. reflexivity.
  - apply (proj1 (init_requires_credentials environ)). repeat split; try done.
    intros [n Hn]. vm_compute in Hn. destruct n as [|[|n]]; discriminate.
Defined.

(** X2.  The client keeps the base URL with all its trailing slashes taken
    off and nothing else changed: the kept URL does not end in a slash, and
    the one of the environment is the kept one followed by slashes only.
    The three other settings are kept as they are in the environment. *)
Theorem init_settings (environ : gmap string string) (c : SACClient) :
  __init__ environ = Ok c →
  (∀ t, base_url c ≠ t +:+ "/") ∧
  (∃ n, getenv environ "SAC_BASE_URL" = base_url c +:+ repeat_char slash n) ∧
  token_url c = getenv environ "SAC_TOKEN_URL" ∧
  client_id c = getenv environ "SAC_CLIENT_ID" ∧
  client_secret c = getenv environ "SAC_CLIENT_SECRET".
Proof.
  unfold __init__. cbv zeta. destruct (negb _); [discriminate |].
  intros [= <-]. simpl.
  split; [apply rstrip_no_trailing |]. split; [apply rstrip_spec | done].
Qed.

(** X2 on an environment whose base URL ends in three slashes. *)
Lemma init_settings_witness :
  ∃ c, __init__ environ_slashes = Ok c ∧
    base_url c = "https://sac.example" ∧
    (∀ t, base_url c ≠ t +:+ "/") ∧
    ∃ n, getenv environ_slashes "SAC_BASE_URL" =
           base_url c +:+ repeat_char slash n.
Proof.
  assert (__init__ environ_slashes =
            Ok (client JNull 0 JNull)) as Hinit by (vm_compute; reflexivity).
  exists (client JNull 0 JNull).
  split; [exact Hinit |]. split; [reflexivity |].
  destruct (init_settings environ_slashes (client JNull 0 JNull) Hinit)
    as (Hno & Hn & _).
  split; [exact Hno | exact Hn].
Defined.

(** ** [_authenticate] *)

Section MoreAuthenticate.
Context {W : Type} `{U : Upstream W}.

Implicit Types (st : State W) (c : SACClient) (r : Response).



(** X3.  An [authenticate()] that raises has made a token request (the cache
    never fails) and leaves the expiry, the CSRF token and the settings of
    the client as they were.  The access token is the old one too, except
    when the response was accepted and had an [access_token] but a lifetime
    on which the addition of line 47 raises (one that is not a number, or an
    integer too large for a [float]): then the new token is already stored,
    under the old expiry. *)
Theorem authenticate_failure_state st e st' :
  _authenticate st = (Raise e, st') →
  ∃ o,
    trace st' = trace st ++ [SessionPost (token_request (self st)) o] ∧
    token_expiry (self st') = token_expiry (self st) ∧
    csrf_token (self st') = csrf_token (self st) ∧
    same_config (self st) (self st') ∧
    (access_token (self st') = access_token (self st) ∨
     ∃ r, o = Ok r ∧ ¬ (400 ≤ status_code r < 600) ∧
          token_field r = Some (access_token (self st')) ∧
          lifetime r = None).
Proof.
  destruct (token_valid (self st) (timestamp (world st))) eqn:Hv.
  { now rewrite authenticate_cached. }
  rewrite (authenticate_fresh st Hv).
  destruct (transport _ (world st)) as [[r|e'] w'].
  2: { intros [= <- <-]. exists (Raise e'). simpl. repeat split; auto. }
  rewrite (token_outcome_spec (self st) r (timestamp w')).
  destruct ((400 <=? status_code r) && (status_code r <? 600)) eqn:Hs.
  { intros [= <- <-]. exists (Ok r). simpl. repeat split; auto. }
  destruct (token_field r) as [tok|] eqn:Htok, (lifetime r) as [E|] eqn:HE;
    try discriminate; intros [= _ <-]; exists (Ok r); simpl;
    repeat split; auto.
  right. exists r. repeat split; auto. lia.
Qed.



End MoreAuthenticate.

(** X3 on scripts: a lifetime that is not a number, and one of 10^400, make
    the call raise with the new token stored under the old expiry. *)
Lemma authenticate_failure_state_witness :
  (∃ st', _authenticate st_bad_lifetime = (Raise TypeError, st') ∧
     access_token (self st') = JStr "A" ∧ token_expiry (self st') = 900) ∧
  (∃ st', _authenticate st_huge_lifetime = (Raise OverflowError, st') ∧
     access_token (self st') = JStr "B" ∧ token_expiry (self st') = 0).
Proof.
  split.
  - exists (_authenticate st_bad_lifetime).2.
    split; [vm_compute; reflexivity |]. split; [vm_compute; reflexivity |].
    destruct (authenticate_failure_state st_bad_lifetime TypeError
                (_authenticate st_bad_lifetime).2)
      as (o & _ & Hexp & _); [vm_compute; reflexivity |].
    exact Hexp.
  - exists (_authenticate st_huge_lifetime).2.
    split; [vm_compute; reflexivity |]. split; [vm_compute; reflexivity |].
    destruct (authenticate_failure_state st_huge_lifetime OverflowError
                (_authenticate st_huge_lifetime).2)
      as (o & _ & Hexp & _); [vm_compute; reflexivity |].
    exact Hexp.
Defined.



(** ** [_fetch_csrf] *)

Section MoreClient.
Context {W : Type} `{U : Upstream W}.
Local Open Scope client_scope.

Implicit Types (st : State W) (c : SACClient) (r : Response).

Lemma csrf_headers_lookup (tok : json) :
  csrf_headers tok !! "Authorization" = Some (HBearer tok) ∧
  csrf_headers tok !! "x-csrf-token" = Some (HStr "fetch") ∧
  csrf_headers tok !! "x-sap-sac-custom-auth" = Some (HStr "true").
Proof.
  unfold csrf_headers. split; [| split].
  - now rewrite lookup_insert_eq.
  - rewrite lookup_insert_ne by done. now rewrite lookup_insert_eq.
  - rewrite !lookup_insert_ne by done. now rewrite lookup_singleton_eq.
Qed.

Lemma fetch_csrf_Raise st e st' :
  _fetch_csrf st = (Raise e, st') →
  csrf_token (self st') = csrf_token (self st).
Proof.
  rewrite fetch_csrf_run.
  destruct (_authenticate st) as [[tok|e'] sta] eqn:Ha;
    apply authenticate_auxiliary in Ha as [_ Hc].
  - cbv zeta. destruct (transport _ (world sta)) as [[r|e'] w'].
    + destruct (raise_for_status r); [discriminate |]. now intros [= _ <-].
    + now intros [= _ <-].
  - now intros [= _ <-].
Qed.

(** X6.  A CSRF fetch that returns has ended with one [GET] of
    [{base_url}/api/v1/csrf], sent with [x-csrf-token: fetch], the custom-auth
    marker and the bearer value of the access token the client holds
    afterwards, and answered with a status outside 400..599.  What it returns
    is the [x-csrf-token] header of that answer, [None] when there is none,
    and that value is now the cached CSRF token. *)
Theorem fetch_csrf_success st t st' :
  _fetch_csrf st = (Ok t, st') →
  ∃ pre g r,
    trace st' = trace st ++ pre ++ [SessionGet g (Ok r)] ∧
    main_requests pre = [] ∧
    rq_method g = "GET" ∧
    rq_url g = base_url (self st) +:+ "/api/v1/csrf" ∧
    rq_headers g !! "x-csrf-token" = Some (HStr "fetch") ∧
    rq_headers g !! "x-sap-sac-custom-auth" = Some (HStr "true") ∧
    rq_headers g !! "Authorization" = Some (HBearer (access_token (self st'))) ∧
    ¬ (400 ≤ status_code r < 600) ∧
    t = match headers_get r "x-csrf-token" with
        | Some v => JStr v
        | None => JNull
        end ∧
    csrf_token (self st') = t.
Proof.
  intros (tok & sta & r & Ha & _ & Hs & Ht & Hc & Hat & Htr)%fetch_csrf_Ok.
  pose proof (authenticate_Ok _ _ _ Ha) as Htok.
  apply authenticate_auxiliary in Ha as [[[Hbase _] (pre & Hpre & Hm)] _].
  destruct (csrf_headers_lookup tok) as (H1 & H2 & H3).
  exists pre, (csrf_request (self sta) tok), r.
  rewrite Htr, Hpre, <- List.app_assoc. simpl.
  repeat split; try done.
  - now rewrite Hbase.
  - now rewrite Hat, Htok.
  - unfold raise_for_status in Hs.
    destruct (400 <=? status_code r) eqn:H4,
             (status_code r <? 600) eqn:H6; simpl in Hs; try discriminate; lia.
Qed.

(** X7.  A CSRF fetch that raises leaves the cached CSRF token and the
    settings of the client as they were, and has made no [session.request]
    call. *)
Theorem fetch_csrf_failure_keeps_token st e st' :
  _fetch_csrf st = (Raise e, st') →
  csrf_token (self st') = csrf_token (self st) ∧
  same_config (self st) (self st') ∧
  main_requests (trace st') = main_requests (trace st).
Proof.
  intros Hf.
  pose proof (fetch_csrf_auxiliary _ _ _ Hf) as Haux.
  split; [now apply fetch_csrf_Raise in Hf |].
  split; [apply Haux | now apply auxiliary_main].
Qed.

(** ** [_sync_request] *)

(** X8.  With a valid access token and, for a mutating method, a cached CSRF
    token, a call whose request is not rejected for CSRF costs exactly one
    exchange: the request itself, carrying the cached tokens.  Its outcome is
    the result of the call and the client is left as it was. *)
Theorem warm_call method endpoint payload st o w' :
  token_valid (self st) (timestamp (world st)) = true →
  (mutating method = true → truthy (csrf_token (self st)) = true) →
  let hs :=
    if mutating method
    then <["x-csrf-token" := HTok (csrf_token (self st))]>
           (base_headers (access_token (self st)))
    else base_headers (access_token (self st)) in
  let q := main_request method (build_url (base_url (self st)) endpoint) hs
             payload in
  transport q (world st) = (o, w') →
  (∀ r, o = Ok r → ¬ rejects_csrf r) →
  _sync_request method endpoint payload st =
    (o, {| self := self st; world := w';
           trace := trace st ++ [SessionRequest q o] |}).
Proof.
  intros Hv Hcsrf hs q Ht Hno.
  rewrite _sync_request_first_attempt, first_attempt_run. cbv zeta.
  rewrite (authenticate_cached st Hv).
  assert (attach_csrf method (base_headers (access_token (self st))) st =
          (Ok hs, st)) as ->.
  { unfold attach_csrf. subst hs. destruct (mutating method); [| reflexivity].
    rewrite bind_get_self, Hcsrf by reflexivity. reflexivity. }
  fold q. rewrite Ht. destruct o as [r|e]; [| reflexivity].
  destruct (csrf_rejected r) eqn:Hrej; [| reflexivity].
  apply csrf_rejected_spec in Hrej. now destruct (Hno r).
Qed.

(** X9.  After a retry the client holds the CSRF token that the forced fetch
    returned, the one the second request was sent with, while its settings
    are the ones it started with. *)
Theorem retry_caches_new_token method endpoint payload st url hs r1 st1 t st2 :
  first_attempt method endpoint payload st = (Ok (url, hs, r1), st1) →
  rejects_csrf r1 →
  _fetch_csrf st1 = (Ok t, st2) →
  let st3 := (_sync_request method endpoint payload st).2 in
  csrf_token (self st3) = t ∧
  access_token (self st3) = access_token (self st2) ∧
  same_config (self st) (self st3) ∧
  ∃ q2, last (main_requests (trace st3)) = Some q2 ∧
        rq_headers q2 !! "x-csrf-token" = Some (HTok t).
Proof.
  intros H1 Hrej%csrf_rejected_spec Hf st3. subst st3.
  rewrite (sync_request_retry _ _ _ _ _ _ _ _ _ _ H1 Hrej Hf).
  destruct (transport _ (world st2)) as [o2 w']. simpl.
  pose proof Hf as (_ & _ & _ & _ & _ & _ & _ & Hc & _)%fetch_csrf_Ok.
  pose proof (first_attempt_auxiliary _ _ _ _ _ _ _ _ H1) as [Hc1 _].
  pose proof (fetch_csrf_auxiliary _ _ _ Hf) as [Hc2 _].
  repeat split; try done.
  - destruct Hc1, Hc2. congruence.
  - destruct Hc1 as (_ & ? & _), Hc2 as (_ & ? & _). congruence.
  - destruct Hc1 as (_ & _ & ? & _), Hc2 as (_ & _ & ? & _). congruence.
  - destruct Hc1 as (_ & _ & _ & ?), Hc2 as (_ & _ & _ & ?). congruence.
  - eexists. rewrite main_requests_app. simpl. rewrite last_snoc.
    split; [reflexivity |]. simpl. apply lookup_insert_eq.
Qed.

(** X10.  When the first attempt is rejected for CSRF and the forced fetch
    raises, the call raises that same exception without a second attempt: it
    has made the one request, and the cached CSRF token is the one from
    before the fetch. *)
Theorem retry_abandoned_when_fetch_fails method endpoint payload st url hs r1
    st1 e st2 :
  first_attempt method endpoint payload st = (Ok (url, hs, r1), st1) →
  rejects_csrf r1 →
  _fetch_csrf st1 = (Raise e, st2) →
  _sync_request method endpoint payload st = (Raise e, st2) ∧
  main_requests (trace st2) =
    main_requests (trace st) ++ [main_request method url hs payload] ∧
  csrf_token (self st2) = csrf_token (self st1).
Proof.
  intros H1 Hrej%csrf_rejected_spec Hf.
  destruct (sync_request_retry_fails _ _ _ _ _ _ _ _ _ _ H1 Hrej Hf)
    as [Hrun Hm].
  repeat split; try done.
  now apply fetch_csrf_Raise in Hf.
Qed.

End MoreClient.

(** ** Exchanges of a call: the first failure ends it, and their number *)

Section Exchanges.
Context {W : Type} `{U : Upstream W}.
Local Open Scope client_scope.

Implicit Types (st : State W).

Lemma abrupt_refl {A} st (res : result A) : abrupt st res st.
Proof.
  exists []. rewrite app_nil_r. split; [done |].
  intros [|x pre] ev post e Hev; discriminate.
Qed.

Lemma Abrupt_pure {A} (m : M W A) :
  (∀ st, (m st).2 = st) → Abrupt m.
Proof.
  intros Hm st res st' Hrun. specialize (Hm st). rewrite Hrun in Hm.
  simpl in Hm. subst st'. apply abrupt_refl.
Qed.

Lemma Abrupt_update_self f : Abrupt (update_self f : M W unit).
Proof.
  intros st res st' [= <- <-]. exists []. simpl. rewrite app_nil_r.
  split; [done |]. intros [|x pre] ev post e Hev; discriminate.
Qed.

Lemma Abrupt_call site q :
  (∀ o, outcome (site q o) = o) → Abrupt (call site q).
Proof.
  intros Hsite st res st'. unfold call.
  destruct (transport q (world st)) as [o w']. intros [= <- <-].
  exists [site q o]. split; [done |].
  intros [|x [|y pre]] ev post e Hev; try discriminate.
  injection Hev as <- <-. now rewrite Hsite.
Qed.

Lemma Abrupt_bind {A B} (m : M W A) (k : A → M W B) :
  Abrupt m → (∀ a, Abrupt (k a)) → Abrupt (bind m k).
Proof.
  intros Hm Hk st res st'. rewrite bind_run.
  destruct (m st) as [[a|e] st1] eqn:Em; apply Hm in Em as (ev1 & T1 & P1).
  - intros (ev2 & T2 & P2)%Hk. exists (ev1 ++ ev2).
    rewrite T2, T1, <- List.app_assoc. split; [done |].
    intros pre ev post e Hsplit Ho.
    apply List.app_eq_app in Hsplit as [l [[Ha Hb] | [Ha Hb]]].
    + destruct l as [|x l].
      * rewrite app_nil_r in Ha. simpl in Hb. subst.
        apply (P2 [] ev post e); done.
      * injection Hb as <- Hb. now destruct (P1 pre ev l e Ha Ho).
    + apply (P2 l ev post e); done.
  - intros [= <- <-]. exists ev1. split; [done |].
    intros pre ev post e' Hsplit Ho.
    destruct (P1 _ _ _ _ Hsplit Ho) as [-> He]. split; [done | congruence].
Qed.

Lemma Abrupt_if {A} (b : bool) (m1 m2 : M W A) :
  Abrupt m1 → Abrupt m2 → Abrupt (if b then m1 else m2).
Proof. now destruct b. Qed.

Ltac abrupt_run :=
  repeat first
    [ progress (intros)
    | progress (cbv zeta)
    | assumption
    | simple apply Abrupt_bind
    | simple apply Abrupt_if
    | simple apply Abrupt_update_self
    | (apply Abrupt_call; reflexivity)
    | (apply Abrupt_pure; reflexivity) ].

Lemma Abrupt_authenticate : Abrupt _authenticate.
Proof. unfold _authenticate, session_post. abrupt_run. Qed.

Lemma Abrupt_fetch_csrf : Abrupt _fetch_csrf.
Proof.
  pose proof Abrupt_authenticate.
  unfold _fetch_csrf, session_get. abrupt_run.
Qed.

Lemma Abrupt_sync_request method endpoint payload :
  Abrupt (_sync_request method endpoint payload).
Proof.
  pose proof Abrupt_authenticate. pose proof Abrupt_fetch_csrf.
  unfold _sync_request, session_request. abrupt_run.
Qed.

(** X11.  The client catches no exception of [requests]: an exchange that
    raised, whether with the token endpoint, the CSRF endpoint or the
    platform itself, is the last exchange of the call, and the call raises
    that exception. *)
Theorem transport_failure_ends_call method endpoint payload st pre ev post e :
  trace (_sync_request method endpoint payload st).2 =
    trace st ++ pre ++ ev :: post →
  outcome ev = Raise e →
  post = [] ∧ (_sync_request method endpoint payload st).1 = Raise e.
Proof.
  destruct (_sync_request method endpoint payload st) as [res st'] eqn:Hrun.
  apply Abrupt_sync_request in Hrun as (evs & Htr & Hevs). simpl.
  rewrite Htr. intros ->%app_inv_head Ho. eapply Hevs; done.
Qed.

Lemma within_refl st : within 0 st st.
Proof. exists []. now rewrite app_nil_r. Qed.

Lemma within_trans n k st1 st2 st3 :
  within n st1 st2 → within k st2 st3 → within (n + k) st1 st3.
Proof.
  intros (e1 & T1 & L1) (e2 & T2 & L2). exists (e1 ++ e2).
  rewrite T2, T1, <- List.app_assoc. split; [done |].
  rewrite length_app. lia.
Qed.

Lemma within_le n k st st' : (n ≤ k)%nat → within n st st' → within k st st'.
Proof. intros Hle (evs & T & L). exists evs. split; [done | lia]. Qed.

Lemma within_authenticate st :
  within 1 st (_authenticate st).2.
Proof.
  destruct (token_valid (self st) (timestamp (world st))) eqn:Hv.
  - rewrite authenticate_cached by done. eapply within_le, within_refl. lia.
  - rewrite (authenticate_fresh st Hv).
    destruct (transport _ (world st)) as [[r|e] w'];
      [destruct (token_outcome _ r _) |]; now eexists.
Qed.

Lemma within_fetch_csrf st : within 2 st (_fetch_csrf st).2.
Proof.
  rewrite fetch_csrf_run. pose proof (within_authenticate st) as Ha.
  destruct (_authenticate st) as [[tok|e] sta]; simpl in Ha.
  - apply (within_trans 1 1 _ sta); [done |]. cbv zeta.
    destruct (transport _ (world sta)) as [[r|e] w'];
      [destruct (raise_for_status r) |]; now eexists.
  - eapply within_le; [| exact Ha]. lia.
Qed.

Lemma within_attach_csrf method hs st :
  within 2 st (attach_csrf method hs st).2.
Proof.
  unfold attach_csrf. destruct (mutating method).
  - rewrite bind_get_self. destruct (truthy (csrf_token (self st))).
    + eapply within_le, within_refl. lia.
    + rewrite bind_run. pose proof (within_fetch_csrf st) as Hf.
      now destruct (_fetch_csrf st) as [[t|e] st2].
  - eapply within_le, within_refl. lia.
Qed.

Lemma within_first_attempt method endpoint payload st :
  within 4 st (first_attempt method endpoint payload st).2.
Proof.
  rewrite first_attempt_run. cbv zeta.
  pose proof (within_authenticate st) as Ha.
  destruct (_authenticate st) as [[tok|e] sta]; simpl in Ha.
  2: { eapply within_le; [| exact Ha]. lia. }
  pose proof (within_attach_csrf method (base_headers tok) sta) as Hat.
  destruct (attach_csrf _ _ sta) as [[hs|e] stb]; simpl in Hat.
  2: { eapply within_le; [| exact (within_trans _ _ _ _ _ Ha Hat)]. lia. }
  apply (within_trans 3 1 _ stb); [exact (within_trans _ _ _ _ _ Ha Hat) |].
  destruct (transport _ (world stb)) as [[r|e] w']; now eexists.
Qed.

(** X12.  One call makes at most seven exchanges with the upstream (three
    token requests, two CSRF fetches and two requests at most), and at most
    two of them are [session.request] calls. *)
Theorem call_exchanges_bounded method endpoint payload st :
  ∃ evs,
    trace (_sync_request method endpoint payload st).2 = trace st ++ evs ∧
    (length evs ≤ 7)%nat ∧
    (length (main_requests evs) ≤ 2)%nat.
Proof.
  assert (within 7 st (_sync_request method endpoint payload st).2)
    as (evs & Hevs & Hlen).
  { rewrite _sync_request_first_attempt.
    pose proof (within_first_attempt method endpoint payload st) as H1.
    destruct (first_attempt method endpoint payload st)
      as [[[[url hs] r1]|e] st1]; simpl in H1.
    2: { eapply within_le; [| exact H1]. lia. }
    destruct (csrf_rejected r1).
    2: { eapply within_le; [| exact H1]. lia. }
    rewrite bind_run. pose proof (within_fetch_csrf st1) as Hf.
    destruct (_fetch_csrf st1) as [[t|e] st2]; simpl in Hf.
    2: { eapply within_le; [| exact (within_trans _ _ _ _ _ H1 Hf)]. lia. }
    apply (within_trans 6 1 _ st2); [exact (within_trans _ _ _ _ _ H1 Hf) |].
    unfold session_request, call.
    destruct (transport _ (world st2)) as [o w']. now eexists. }
  exists evs. split; [done |]. split; [done |].
  assert (main_requests (trace (_sync_request method endpoint payload st).2) =
          main_requests (trace st) ++ main_requests evs) as Hm
    by now rewrite Hevs, main_requests_app.
  destruct (sync_request_requests method endpoint payload st)
    as [Hn | (tok & sta & hs & stb & _ & _ &
              [Hn | (r1 & st1 & t & st2 & _ & _ & _ & Hn)])];
    rewrite Hn in Hm.
  - apply app_eq_self in Hm as ->. simpl. lia.
  - apply app_inv_head in Hm as <-. simpl. lia.
  - apply app_inv_head in Hm as <-. simpl. lia.
Qed.

End Exchanges.

Section MoreRequests.
Context {W : Type} `{U : Upstream W}.
Local Open Scope client_scope.

Implicit Types (st : State W).

(** X16.  The method is read in upper case only: two spellings of a method
    that differ in letter case give the same call, with the same requests. *)
Theorem method_case_insensitive m1 m2 endpoint payload st :
  upper m1 = upper m2 →
  _sync_request m1 endpoint payload st = _sync_request m2 endpoint payload st.
Proof.
  intros Hm. unfold _sync_request, mutating. now rewrite Hm.
Qed.

Lemma base_headers_fixed (tok : json) :
  base_headers tok !! "Content-Type" = Some (HStr "application/json") ∧
  base_headers tok !! "x-sap-sac-custom-auth" = Some (HStr "true").
Proof.
  unfold base_headers. split.
  - rewrite !lookup_insert_ne by done. now rewrite lookup_singleton_eq.
  - rewrite lookup_insert_ne by done. now rewrite lookup_insert_eq.
Qed.

Lemma attach_csrf_fixed method (tok : json) sta hs stb :
  attach_csrf method (base_headers tok) sta = (Ok hs, stb) →
  hs !! "Content-Type" = Some (HStr "application/json") ∧
  hs !! "x-sap-sac-custom-auth" = Some (HStr "true").
Proof.
  intros Hat%attach_csrf_Ok. destruct (base_headers_fixed tok) as [Hc Hx].
  destruct (mutating method); [destruct (truthy _) |].
  - destruct Hat as [_ ->]. now rewrite !lookup_insert_ne by done.
  - destruct Hat as (t & _ & ->). now rewrite !lookup_insert_ne by done.
  - now destruct Hat as [_ ->].
Qed.

(** X17.  Every request of a call goes out with the upper-cased method, the
    payload as its JSON body and no form data, and with the headers
    [Content-Type: application/json] and [x-sap-sac-custom-auth: true]. *)
Theorem request_invariants method endpoint payload st :
  ∃ qs,
    main_requests (trace (_sync_request method endpoint payload st).2) =
      main_requests (trace st) ++ qs ∧
    Forall (λ q,
      rq_method q = upper method ∧ rq_json q = payload ∧ rq_data q = ∅ ∧
      rq_headers q !! "Content-Type" = Some (HStr "application/json") ∧
      rq_headers q !! "x-sap-sac-custom-auth" = Some (HStr "true")) qs.
Proof.
  destruct (sync_request_requests method endpoint payload st)
    as [Hm | (tok & sta & hs & stb & _ & [Hc Hx]%attach_csrf_fixed &
              [Hm | (r1 & st1 & t & st2 & _ & _ & _ & Hm)])].
  - exists []. now rewrite app_nil_r.
  - eexists. split; [exact Hm |]. repeat constructor; done.
  - eexists. split; [exact Hm |].
    repeat constructor; simpl; try done; now rewrite lookup_insert_ne.
Qed.

End MoreRequests.

(** ** The relay route *)

Section MoreRelay.
Context {W : Type} `{U : Upstream W}.
Local Open Scope client_scope.

Implicit Types (st : State W).

Lemma sourced_refl {A} st (res : result A) : internal res → sourced st res st.
Proof.
  intros Hi. exists []. rewrite app_nil_r. split; [done |].
  intros e He. right. now apply Hi.
Qed.

Lemma Sourced_pure {A} (m : M W A) :
  (∀ st, (m st).2 = st) → (∀ st, internal (m st).1) → Sourced m.
Proof.
  intros Hm Hi st res st' Hrun. specialize (Hm st). specialize (Hi st).
  rewrite Hrun in Hm, Hi. simpl in *. subst st'. now apply sourced_refl.
Qed.

Lemma Sourced_update_self f : Sourced (update_self f : M W unit).
Proof.
  intros st res st' [= <- <-]. exists []. simpl. rewrite app_nil_r.
  split; [done |]. discriminate.
Qed.

Lemma Sourced_call site q :
  (∀ o, outcome (site q o) = o) → Sourced (call site q).
Proof.
  intros Hsite st res st'. unfold call.
  destruct (transport q (world st)) as [o w']. intros [= <- <-].
  exists [site q o]. split; [done |].
  intros e ->. left. eexists. split; [reflexivity |]. apply Hsite.
Qed.

Lemma Sourced_bind {A B} (m : M W A) (k : A → M W B) :
  Sourced m → (∀ a, Sourced (k a)) → Sourced (bind m k).
Proof.
  intros Hm Hk st res st'. rewrite bind_run.
  destruct (m st) as [[a|e] st1] eqn:Em; apply Hm in Em as (ev1 & T1 & P1).
  - intros (ev2 & T2 & P2)%Hk. exists (ev1 ++ ev2).
    rewrite T2, T1, <- List.app_assoc. split; [done |].
    intros e He. destruct (P2 e He) as [(ev & Hl & Ho) | Hi]; [| now right].
    left. exists ev. split; [| done].
    destruct ev2 as [|x ev2] using rev_ind; [discriminate |].
    rewrite List.app_assoc, last_snoc. now rewrite last_snoc in Hl.
  - intros [= <- <-]. exists ev1. split; [done |].
    intros e' [= <-]. now apply P1.
Qed.

Lemma Sourced_if {A} (b : bool) (m1 m2 : M W A) :
  Sourced m1 → Sourced m2 → Sourced (if b then m1 else m2).
Proof. now destruct b. Qed.

Lemma internal_Ok {A} (a : A) : internal (Ok a).
Proof. intros e [=]. Qed.

Lemma internal_raise_for_status r : internal (raise_for_status r).
Proof.
  unfold raise_for_status. destruct (_ && _); intros e [= <-]; done.
Qed.

Lemma internal_response_json r : internal (response_json r).
Proof. unfold response_json. destruct (json_ r); intros e [= <-]; done. Qed.

Lemma internal_getitem data k : internal (getitem data k).
Proof.
  unfold getitem. destruct data as [| | | | |ms]; try (intros e [= <-]; done).
  destruct (obj_get k ms); intros e [= <-]; done.
Qed.

Lemma internal_dict_get data k d : internal (dict_get data k d).
Proof. unfold dict_get. destruct data; intros e [= <-]; done. Qed.

Lemma internal_add_number t v : internal (add_number t v).
Proof.
  unfold add_number, float_of_int.
  destruct v; try (intros e [= <-]; done).
  destruct (_ <=? _); intros e [= <-]; done.
Qed.

Ltac sourced_run :=
  repeat first
    [ progress (intros)
    | progress (cbv zeta)
    | assumption
    | simple apply Sourced_bind
    | simple apply Sourced_if
    | simple apply Sourced_update_self
    | (apply Sourced_call; reflexivity)
    | (apply Sourced_pure;
       [ reflexivity
       | intros ?; simpl;
         first [ apply internal_Ok | apply internal_raise_for_status
               | apply internal_response_json | apply internal_getitem
               | apply internal_dict_get | apply internal_add_number ] ]) ].

Lemma Sourced_authenticate : Sourced _authenticate.
Proof. unfold _authenticate, session_post. sourced_run. Qed.

Lemma Sourced_fetch_csrf : Sourced _fetch_csrf.
Proof.
  pose proof Sourced_authenticate.
  unfold _fetch_csrf, session_get. sourced_run.
Qed.

Lemma Sourced_sync_request method endpoint payload :
  Sourced (_sync_request method endpoint payload).
Proof.
  pose proof Sourced_authenticate. pose proof Sourced_fetch_csrf.
  unfold _sync_request, session_request. sourced_run.
Qed.

End MoreRelay.

Section RelayReplies.
Context {W : Type} `{U : Upstream W}.

(** X13.  When a setting is missing the route answers 500 with the
    [ValueError] of the constructor, makes no upstream call and leaves the
    environment as it is. *)
Theorem relay_config_error environ req (w : W) e :
  __init__ environ = Raise e →
  execute_sac_request environ req w =
    (HTTPException 500 (DException (ValueError "Missing SAC credentials")),
     w, []).
Proof.
  intros Hinit. unfold execute_sac_request. rewrite Hinit.
  unfold __init__ in Hinit. destruct (negb _); [| discriminate].
  now injection Hinit as <-.
Qed.

(** X14.  When the token endpoint answers the token request of a relay call
    with a status from 400 to 599, the route answers 500 with the
    [HTTPError] in its detail, and the token request is the only exchange of
    the call: the request of the caller is never sent. *)
Theorem relay_auth_error environ req (w : W) client r w' :
  __init__ environ = Ok client →
  transport (token_request client) w = (Ok r, w') →
  400 ≤ status_code r < 600 →
  execute_sac_request environ req w =
    (HTTPException 500 (DException (HTTPError (status_code r))), w',
     [SessionPost (token_request client) (Ok r)]).
Proof.
  intros Hinit Ht Hs. unfold execute_sac_request. rewrite Hinit.
  apply init_empty in Hinit as (Hat & _ & _).
  unfold _sync_request. rewrite bind_get_self. cbv zeta. rewrite bind_run.
  rewrite authenticate_fresh
    by (unfold token_valid; simpl; now rewrite Hat).
  simpl. rewrite Ht, token_outcome_spec.
  replace ((400 <=? status_code r) && (status_code r <? 600)) with true
    by (symmetry; apply andb_true_iff; split;
        [apply Z.leb_le | apply Z.ltb_lt]; lia).
  reflexivity.
Qed.

(** X15.  The route invents nothing.  An envelope carries the status, the
    decoded body and the headers of the response of the last exchange of the
    call, a [session.request].  A 504 means that the last exchange raised a
    timeout, a 502 that it raised a connection error that is not a timeout;
    every other failure is a 500 whose detail names the exception. *)
Theorem relay_reply_origin environ req (w : W) :
  let '(reply, _, tr) := execute_sac_request environ req w in
  match reply with
  | Envelope s b h =>
      ∃ q r, last tr = Some (SessionRequest q (Ok r)) ∧
             s = status_code r ∧ b = decode_body r ∧ h = dict_of_headers r
  | HTTPException s d =>
      (s = 504 ∧ ∃ ev e, last tr = Some ev ∧ outcome ev = Raise e ∧
                         is_Timeout e = true) ∨
      (s = 502 ∧ ∃ ev e, last tr = Some ev ∧ outcome ev = Raise e ∧
                         is_Timeout e = false ∧ is_ConnectionError e = true) ∨
      (s = 500 ∧ ∃ e, d = DException e ∧
                      is_Timeout e = false ∧ is_ConnectionError e = false)
  end.
Proof.
  unfold execute_sac_request.
  destruct (__init__ environ) as [client|e] eqn:Hinit.
  2: { unfold __init__ in Hinit. destruct (negb _); [| discriminate].
       injection Hinit as <-. simpl. right. right. eauto. }
  destruct (_sync_request _ _ _ (start client w)) as [[r|e] st'] eqn:Hrun.
  - apply sync_request_Ok_last in Hrun as [q Hq]. now exists q, r.
  - apply Sourced_sync_request in Hrun as (evs & Htr & Hsrc).
    simpl in Htr. rewrite Htr. unfold handle.
    destruct (Hsrc e eq_refl) as [(ev & Hl & Ho) | [Ht Hc]].
    + destruct (is_Timeout e) eqn:Ht; [left; eauto 8 |].
      destruct (is_ConnectionError e) eqn:Hc; [right; left; eauto 8 |].
      right. right. eauto.
    + rewrite Ht, Hc. right. right. eauto.
Qed.

End RelayReplies.

(** X18.  The catch-all route answers 404 exactly for the paths that begin
    with [api/], and the console page, the one of [/], for every other
    path, [api] itself among them. *)
Theorem serve_spa_spec (INDEX_HTML full_path : string) :
  (serve_spa INDEX_HTML full_path = PageException 404 ↔
   ∃ rest, full_path = "api/" +:+ rest) ∧
  ((¬ ∃ rest, full_path = "api/" +:+ rest) →
   serve_spa INDEX_HTML full_path = serve_ui INDEX_HTML).
Proof.
  unfold serve_spa, serve_ui, startswith.
  rewrite <- prefix_spec.
  destruct (String.prefix "api/" full_path); split; done.
Qed.

(** ** The further properties on scripted upstreams *)

(** X6 on a script: the fetch ends with the handshake and caches [c1]. *)
Lemma fetch_csrf_success_witness :
  ∃ g r,
    last (trace (_fetch_csrf st_fetch).2) = Some (SessionGet g (Ok r)) ∧
    rq_url g = "https://sac.example" +:+ "/api/v1/csrf" ∧
    csrf_token (self (_fetch_csrf st_fetch).2) = JStr "c1".
Proof.
  assert (_fetch_csrf st_fetch = (Ok (JStr "c1"), (_fetch_csrf st_fetch).2))
    as Hrun by (vm_compute; reflexivity).
  destruct (fetch_csrf_success st_fetch (JStr "c1") (_fetch_csrf st_fetch).2
              Hrun)
    as (pre & g & r & Htr & _ & _ & Hurl & _ & _ & _ & _ & _ & Hc).
  exists g, r. split; [| split; [exact Hurl | exact Hc]].
  rewrite Htr, !List.app_assoc. apply last_snoc.
Defined.

(** X7 on a script: the CSRF endpoint answers 500 and [c1] stays cached. *)
Lemma fetch_csrf_failure_keeps_token_witness :
  _fetch_csrf st_fetch_500 =
    (Raise (HTTPError 500), (_fetch_csrf st_fetch_500).2) ∧
  csrf_token (self (_fetch_csrf st_fetch_500).2) = JStr "c1".
Proof.
  assert (_fetch_csrf st_fetch_500 =
            (Raise (HTTPError 500), (_fetch_csrf st_fetch_500).2)) as Hrun
    by (vm_compute; reflexivity).
  split; [exact Hrun |].
  exact (proj1 (fetch_csrf_failure_keeps_token st_fetch_500 (HTTPError 500)
                  (_fetch_csrf st_fetch_500).2 Hrun)).
Defined.

(** X8 on a script: a GET with a valid token is one exchange. *)
Lemma warm_call_witness :
  ∃ r st',
    _sync_request "GET" "/version" None st_get = (Ok r, st') ∧
    status_code r = 200 ∧ length (trace st') = 1%nat ∧ self st' = self st_get.
Proof.
  pose (r := response 200 "1.0" None []).
  assert (token_valid (self st_get) (timestamp (world st_get)) = true) as Hv
    by reflexivity.
  assert (mutating "GET" = true → truthy (csrf_token (self st_get)) = true)
    as Hcsrf by (vm_compute; discriminate).
  assert (∀ r', Ok r = Ok r' → ¬ rejects_csrf r') as Hno.
  { intros r' [= <-] [Hs _]. discriminate. }
  assert (transport
            (main_request "GET"
               (build_url (base_url (self st_get)) "/version")
               (if mutating "GET"
                then <["x-csrf-token" := HTok (csrf_token (self st_get))]>
                       (base_headers (access_token (self st_get)))
                else base_headers (access_token (self st_get))) None)
            (world st_get) = (Ok r, {| clock := 1001; script := [] |}))
    as Ht by reflexivity.
  pose proof (warm_call "GET" "/version" None st_get (Ok r)
                {| clock := 1001; script := [] |} Hv Hcsrf Ht Hno) as Hrun.
  eexists r, _. split; [exact Hrun |]. repeat split; reflexivity.
Defined.

(** X9 on a script: after the retry the client holds [c2]. *)
Lemma retry_caches_new_token_witness :
  csrf_token (self (_sync_request "POST" "/models" None st_rejected_twice).2) =
    JStr "c2".
Proof.
  assert (first_attempt "POST" "/models" None st_rejected_twice =
            (Ok (models_url, with_csrf "A" "c1",
                 response 403 "Invalid CSRF token" None []),
             after_first "POST" st_rejected_twice)) as H1
    by (vm_compute; reflexivity).
  assert (rejects_csrf (response 403 "Invalid CSRF token" None [])) as Hrej
    by (split; [reflexivity | now exists "INVALID ", " TOKEN"]).
  assert (_fetch_csrf (after_first "POST" st_rejected_twice) =
            (Ok (JStr "c2"), after_fetch "POST" st_rejected_twice)) as Hf
    by (vm_compute; reflexivity).
  exact (proj1 (retry_caches_new_token _ _ _ _ _ _ _ _ _ _ H1 Hrej Hf)).
Defined.

(** X10 on a script: the CSRF endpoint is down, the call raises its 500
    after the one request. *)
Lemma retry_abandoned_when_fetch_fails_witness :
  (_sync_request "POST" "/models" None st_fetch_fails).1 =
    Raise (HTTPError 500) ∧
  length (main_requests
            (trace (_sync_request "POST" "/models" None st_fetch_fails).2)) =
    1%nat.
Proof.
  assert (first_attempt "POST" "/models" None st_fetch_fails =
            (Ok (models_url, with_csrf "A" "c1",
                 response 403 "Invalid CSRF token" None []),
             after_first "POST" st_fetch_fails)) as H1
    by (vm_compute; reflexivity).
  assert (rejects_csrf (response 403 "Invalid CSRF token" None [])) as Hrej
    by (split; [reflexivity | now exists "INVALID ", " TOKEN"]).
  assert (_fetch_csrf (after_first "POST" st_fetch_fails) =
            (Raise (HTTPError 500), after_fetch "POST" st_fetch_fails)) as Hf
    by (vm_compute; reflexivity).
  destruct (retry_abandoned_when_fetch_fails _ _ _ _ _ _ _ _ _ _ H1 Hrej Hf)
    as (Hrun & Hm & _).
  rewrite Hrun. cbn [fst snd]. split; [reflexivity |].
  rewrite Hm. reflexivity.
Defined.

(** X11 on a script: the request times out and the call raises the
    timeout. *)
Lemma transport_failure_ends_call_witness :
  (_sync_request "GET" "/slow" None st_get_timeout).1 = Raise ReadTimeout.
Proof.
  pose (q := main_request "GET" "https://sac.example/slow"
               (base_headers (JStr "A")) None).
  assert (trace (_sync_request "GET" "/slow" None st_get_timeout).2 =
          trace st_get_timeout ++ [] ++ SessionRequest q (Raise ReadTimeout) :: [])
    as Htr by (vm_compute; reflexivity).
  exact (proj2 (transport_failure_ends_call _ _ _ _ _ _ _ ReadTimeout Htr
                  eq_refl)).
Defined.

(** The bound of X12 is reached: tokens of two minutes and a rejected POST
    make seven exchanges. *)
Lemma seven_exchanges :
  length (trace (_sync_request "POST" "/models" None st_longest).2) = 7%nat.
Proof. vm_compute. reflexivity. Qed.

(** X13 on an environment without client secret. *)
Lemma relay_config_error_witness :
  execute_sac_request environ_no_secret (request "GET" "/version")
    upstream_down =
  (HTTPException 500 (DException (ValueError "Missing SAC credentials")),
   upstream_down, []).
Proof.
  apply (relay_config_error environ_no_secret (request "GET" "/version")
           upstream_down (ValueError "Missing SAC credentials")).
  vm_compute. reflexivity.
Defined.

(** X14 on a script: the token endpoint answers 401. *)
Lemma relay_auth_error_witness :
  (execute_sac_request environ (request "POST" "/models")
     upstream_unauthorized).1.1 =
    HTTPException 500 (DException (HTTPError 401)) ∧
  length (execute_sac_request environ (request "POST" "/models")
            upstream_unauthorized).2 = 1%nat.
Proof.
  assert (__init__ environ = Ok (client JNull 0 JNull)) as Hinit
    by (vm_compute; reflexivity).
  assert (transport (token_request (client JNull 0 JNull))
            upstream_unauthorized =
          (Ok (response 401 "denied" None []),
           {| clock := 1001; script := [] |})) as Ht by reflexivity.
  assert (400 ≤ status_code (response 401 "denied" None []) < 600) as Hs
    by (simpl; lia).
  rewrite (relay_auth_error environ (request "POST" "/models")
             upstream_unauthorized _ _ _ Hinit Ht Hs).
  split; reflexivity.
Defined.

(** X16 on a script: [pOsT] and [POST] are the same call. *)
Lemma method_case_insensitive_witness :
  _sync_request "pOsT" "/models" None st_post =
  _sync_request "POST" "/models" None st_post.
Proof.
  apply method_case_insensitive. vm_compute. reflexivity.
Defined.

(** X18 on paths: [api/request] is refused, [api] gets the page. *)
Lemma serve_spa_spec_witness :
  serve_spa "page" "api/request" = PageException 404 ∧
  serve_spa "page" "api" = HTMLResponse "page".
Proof.
  split.
  - apply (proj1 (serve_spa_spec "page" "api/request")). now exists "request".
  - apply (proj2 (serve_spa_spec "page" "api")).
    intros [rest Hrest]. discriminate.
Defined.
